(** * logd development sinks: the HTTP batch endpoint and the WebSocket
      stream endpoint

    Shallow embedding of [scripts/servers/http/main.py] and
    [scripts/servers/socket/main.py].

    Python text ([str]) is a sequence of Unicode code points, so it is
    modelled as [list N].  [print] appends its argument to the console, which
    is kept as the list of printed arguments (each one is followed by a
    newline on the real terminal); the console is a UTF-8 stream, and
    [print] raises on a text that holds a surrogate.  Counters are unbounded
    Python integers that only grow from 0, hence [N]. *)

From Stdlib Require Import List NArith ZArith Lia Bool Arith Sorted FinFun.
From Stdlib Require Import Ascii String Decimal DecimalN DecimalZ.
Import ListNotations.

Set Warnings "-register-all".

Local Open Scope N_scope.
Local Open Scope list_scope.

(* ================================================================== *)
(** * Text *)

Definition char := N.
Definition str := list char.

(** ASCII literals. *)
Definition u (s : string) : str := map N_of_ascii (list_ascii_of_string s).

Definition QUOTE : char := 34.
Definition APOSTROPHE : char := 39.
Definition BACKSLASH : char := 92.
Definition SPACE : char := 32.
Definition NEWLINE : char := 10.
Definition ESC : char := 27.

Fixpoint str_eqb (a b : str) : bool :=
  match a, b with
  | [], [] => true
  | x :: a', y :: b' => (x =? y) && str_eqb a' b'
  | _, _ => false
  end.

Definition mem (c : char) (s : str) : bool := existsb (N.eqb c) s.

(** [sep.join(parts)] *)
Fixpoint join (sep : str) (parts : list str) : str :=
  match parts with
  | [] => []
  | [p] => p
  | p :: rest => p ++ sep ++ join sep rest
  end.

(** ** [str.splitlines()]

    Line boundaries of Python's [str.splitlines]: LF, CR, CR LF, VT, FF,
    FS, GS, RS, NEL, LINE SEPARATOR and PARAGRAPH SEPARATOR.  No empty last
    line is produced after a trailing boundary, and the empty text has no
    line at all. *)
Definition is_linebreak (c : char) : bool :=
  (c =? 10) || (c =? 13) || (c =? 11) || (c =? 12) || (c =? 28) || (c =? 29)
  || (c =? 30) || (c =? 133) || (c =? 8232) || (c =? 8233).

Fixpoint splitlines_from (cur : str) (s : str) : list str :=
  match s with
  | [] => match cur with [] => [] | _ => [cur] end
  | c :: rest =>
      if is_linebreak c then
        cur :: match rest with
               | d :: rest' =>
                   if (c =? 13) && (d =? 10) then splitlines_from [] rest'
                   else splitlines_from [] rest
               | [] => []
               end
      else splitlines_from (cur ++ [c]) rest
  end.

Definition splitlines (s : str) : list str := splitlines_from [] s.

(** ** Numbers as text *)

Fixpoint uint_codes (d : Decimal.uint) : str :=
  match d with
  | Nil => []
  | D0 d => 48 :: uint_codes d
  | D1 d => 49 :: uint_codes d
  | D2 d => 50 :: uint_codes d
  | D3 d => 51 :: uint_codes d
  | D4 d => 52 :: uint_codes d
  | D5 d => 53 :: uint_codes d
  | D6 d => 54 :: uint_codes d
  | D7 d => 55 :: uint_codes d
  | D8 d => 56 :: uint_codes d
  | D9 d => 57 :: uint_codes d
  end.

(** [str(n)] for a non-negative integer. *)
Definition str_of_N (n : N) : str := uint_codes (N.to_uint n).

(** [str(z)] for an integer. *)
Definition str_of_Z (z : Z) : str :=
  match z with
  | Z0 => u "0"
  | Zpos p => str_of_N (Npos p)
  | Zneg p => u "-" ++ str_of_N (Npos p)
  end.

(** [f"{n:0w}"] for a non-negative integer: at least [w] digits, zero filled
    on the left; wider numbers are printed in full. *)
Definition fmt_0w (w : nat) (n : N) : str :=
  let d := str_of_N n in repeat 48 (w - List.length d)%nat ++ d.

Definition hex_digit (n : N) : char := if n <? 10 then 48 + n else 87 + n.

(** [format(n, "04x")] *)
Definition hex4 (n : N) : str :=
  [hex_digit (n / 4096 mod 16); hex_digit (n / 256 mod 16);
   hex_digit (n / 16 mod 16); hex_digit (n mod 16)].

Definition hex2 (n : N) : str :=
  [hex_digit (n / 16 mod 16); hex_digit (n mod 16)].

Definition hex8 (n : N) : str := hex4 (n / 65536) ++ hex4 (n mod 65536).

(** ** Text that a UTF-8 console takes

    A Python text may hold surrogate code points (U+D800 to U+DFFF), which
    the JSON decoder produces for an unpaired [\uXXXX] escape.  The UTF-8
    codec refuses them. *)
Definition is_surrogate (c : char) : bool := (55296 <=? c) && (c <=? 57343).

Definition encodable (s : str) : bool :=
  forallb (fun c => negb (is_surrogate c)) s.

(** The printable characters of ASCII, from the space to the tilde. *)
Definition printable_ascii (c : char) : bool := (32 <=? c) && (c <=? 126).

Definition plain (s : str) : bool := forallb printable_ascii s.

(* ================================================================== *)
(** * Python values produced by the JSON decoder *)

(** A float is identified by the JSON lexeme it was read from (or one of the
    constants [NaN], [Infinity], [-Infinity] that Python's decoder accepts).
    A dict keeps its items in insertion order; its keys are always text
    because they come from JSON. *)
Inductive pyval : Type :=
| PyNone
| PyBool (b : bool)
| PyInt (z : Z)
| PyFloat (lexeme : str)
| PyStr (s : str)
| PyList (items : list pyval)
| PyDict (items : list (str * pyval)).

(** What the interpreter provides and the repository does not: the decimal
    form of a binary float and the Unicode table of printable characters. *)
Class Runtime : Type := {
  (** [repr(float(lexeme))], which is never empty: its first character and
      the others *)
  float_repr_chars : str -> char * str;
  (** [chr(c).isprintable()], consulted for code points from 128 on *)
  isprintable : char -> bool
}.

Definition float_repr {rt : Runtime} (lexeme : str) : str :=
  fst (float_repr_chars lexeme) :: snd (float_repr_chars lexeme).

Section Values.
Context {rt : Runtime}.

(** ** [repr] and [str] *)

Definition repr_char (quote : char) (c : char) : str :=
  if (c =? quote) || (c =? BACKSLASH) then [BACKSLASH; c]
  else if c =? 9 then u "\t"
  else if c =? 10 then u "\n"
  else if c =? 13 then u "\r"
  else if (c <? 32) || (c =? 127) then u "\x" ++ hex2 c
  else if c <? 127 then [c]
  else if isprintable c then [c]
  else if c <? 256 then u "\x" ++ hex2 c
  else if c <? 65536 then u "\u" ++ hex4 c
  else u "\U" ++ hex8 c.

(** Single quotes, unless the text has a single quote and no double quote. *)
Definition repr_str (s : str) : str :=
  let quote := if mem APOSTROPHE s && negb (mem QUOTE s)
               then QUOTE else APOSTROPHE in
  quote :: flat_map (repr_char quote) s ++ [quote].

Fixpoint py_repr (v : pyval) : str :=
  match v with
  | PyNone => u "None"
  | PyBool true => u "True"
  | PyBool false => u "False"
  | PyInt z => str_of_Z z
  | PyFloat lexeme => float_repr lexeme
  | PyStr s => repr_str s
  | PyList items => u "[" ++ join (u ", ") (map py_repr items) ++ u "]"
  | PyDict items =>
      u "{"
      ++ join (u ", ")
           (map (fun kv => repr_str (fst kv) ++ u ": " ++ py_repr (snd kv))
              items)
      ++ u "}"
  end.

Definition py_str (v : pyval) : str :=
  match v with
  | PyStr s => s
  | _ => py_repr v
  end.

(** ** [json.dumps(v, indent=2)]

    Defaults otherwise: [ensure_ascii=True], [sort_keys=False],
    separators ["," , ": "], [allow_nan=True]. *)

Definition escape_ascii (c : char) : str :=
  if c =? QUOTE then [BACKSLASH; QUOTE]
  else if c =? BACKSLASH then [BACKSLASH; BACKSLASH]
  else if c =? 8 then u "\b"
  else if c =? 12 then u "\f"
  else if c =? 10 then u "\n"
  else if c =? 13 then u "\r"
  else if c =? 9 then u "\t"
  else if (32 <=? c) && (c <=? 126) then [c]
  else if c <? 65536 then u "\u" ++ hex4 c
  else
    let n := c - 65536 in
    u "\u" ++ hex4 (N.lor 55296 (N.land (N.shiftr n 10) 1023))
    ++ u "\u" ++ hex4 (N.lor 56320 (N.land n 1023)).

Definition encode_basestring_ascii (s : str) : str :=
  QUOTE :: flat_map escape_ascii s ++ [QUOTE].

Definition floatstr (lexeme : str) : str :=
  let r := float_repr lexeme in
  if str_eqb r (u "nan") then u "NaN"
  else if str_eqb r (u "inf") then u "Infinity"
  else if str_eqb r (u "-inf") then u "-Infinity"
  else r.

Definition newline_indent (level : nat) : str :=
  NEWLINE :: repeat SPACE (2 * level).

Fixpoint dumps_level (level : nat) (v : pyval) : str :=
  match v with
  | PyNone => u "null"
  | PyBool true => u "true"
  | PyBool false => u "false"
  | PyInt z => str_of_Z z
  | PyFloat lexeme => floatstr lexeme
  | PyStr s => encode_basestring_ascii s
  | PyList [] => u "[]"
  | PyList items =>
      u "[" ++ newline_indent (S level)
      ++ join (u "," ++ newline_indent (S level))
           (map (dumps_level (S level)) items)
      ++ newline_indent level ++ u "]"
  | PyDict [] => u "{}"
  | PyDict items =>
      u "{" ++ newline_indent (S level)
      ++ join (u "," ++ newline_indent (S level))
           (map (fun kv =>
                   encode_basestring_ascii (fst kv) ++ u ": "
                   ++ dumps_level (S level) (snd kv))
              items)
      ++ newline_indent level ++ u "}"
  end.

Definition dumps_indent2 (v : pyval) : str := dumps_level 0 v.

End Values.

(* ================================================================== *)
(** * [json.loads] on text

    The decoder of the standard library (its accelerated scanner): strict
    strings, the constants [NaN], [Infinity] and [-Infinity], the last value
    kept for a repeated key.  Nesting is taken to stay below the
    interpreter's recursion limit and integers below its digit limit.

    The recursive descent runs on fuel; [loads] supplies enough of it for
    every input (lemma [loads_fuel_enough]). *)

Inductive scan (A : Type) : Type :=
| Parsed (a : A) (rest : str)
| Invalid
| OutOfFuel.
Arguments Parsed {A} a rest.
Arguments Invalid {A}.
Arguments OutOfFuel {A}.

Definition is_whitespace (c : char) : bool :=
  (c =? 32) || (c =? 9) || (c =? 10) || (c =? 13).

Fixpoint skip_whitespace (s : str) : str :=
  match s with
  | c :: rest => if is_whitespace c then skip_whitespace rest else s
  | [] => []
  end.

Definition is_digit (c : char) : bool := (48 <=? c) && (c <=? 57).

Fixpoint span_digits (s : str) : str * str :=
  match s with
  | c :: rest =>
      if is_digit c
      then let '(ds, rest') := span_digits rest in (c :: ds, rest')
      else ([], s)
  | [] => ([], [])
  end.

Fixpoint strip_prefix (p s : str) : option str :=
  match p, s with
  | [], _ => Some s
  | x :: p', y :: s' => if x =? y then strip_prefix p' s' else None
  | _ :: _, [] => None
  end.

Definition hex_value (c : char) : option N :=
  if (48 <=? c) && (c <=? 57) then Some (c - 48)
  else if (97 <=? c) && (c <=? 102) then Some (c - 87)
  else if (65 <=? c) && (c <=? 70) then Some (c - 55)
  else None.

Definition decode_hex4 (a b c d : char) : option N :=
  match hex_value a, hex_value b, hex_value c, hex_value d with
  | Some x, Some y, Some z, Some w => Some (((x * 16 + y) * 16 + z) * 16 + w)
  | _, _, _, _ => None
  end.

Definition simple_escape (c : char) : option char :=
  if c =? QUOTE then Some QUOTE
  else if c =? BACKSLASH then Some BACKSLASH
  else if c =? 47 then Some 47
  else if c =? 98 then Some 8
  else if c =? 102 then Some 12
  else if c =? 110 then Some 10
  else if c =? 114 then Some 13
  else if c =? 116 then Some 9
  else None.

Definition is_high_surrogate (c : N) : bool := (55296 <=? c) && (c <=? 56319).
Definition is_low_surrogate (c : N) : bool := (56320 <=? c) && (c <=? 57343).

(** The code point of a surrogate pair. *)
Definition join_surrogates (hi lo : N) : N :=
  65536 + N.lor (N.shiftl (hi - 55296) 10) (lo - 56320).

(** Scans the body of a string literal whose opening quote has been read;
    [acc] holds the characters decoded so far.  After a high surrogate
    escape, a second escape is looked at when at least one more character
    follows it. *)
Fixpoint scanstring (acc : str) (s : str) : option (str * str) :=
  match s with
  | [] => None
  | c :: rest =>
      if c =? QUOTE then Some (acc, rest)
      else if c =? BACKSLASH then
        match rest with
        | [] => None
        | e :: rest0 =>
            if e =? 117 then
              match rest0 with
              | a :: b :: c1 :: d :: rest1 =>
                  match decode_hex4 a b c1 d with
                  | None => None
                  | Some hi =>
                      match rest1 with
                      | bs :: e2 :: a2 :: b2 :: c2 :: d2 :: ((_ :: _) as rest2) =>
                          if is_high_surrogate hi && (bs =? BACKSLASH)
                             && (e2 =? 117)
                          then
                            match decode_hex4 a2 b2 c2 d2 with
                            | None => None
                            | Some lo =>
                                if is_low_surrogate lo
                                then scanstring
                                       (acc ++ [join_surrogates hi lo]) rest2
                                else scanstring (acc ++ [hi]) rest1
                            end
                          else scanstring (acc ++ [hi]) rest1
                      | _ => scanstring (acc ++ [hi]) rest1
                      end
                  end
              | _ => None
              end
            else
              match simple_escape e with
              | Some x => scanstring (acc ++ [x]) rest0
              | None => None
              end
        end
      else if c <? 32 then None
      else scanstring (acc ++ [c]) rest
  end.

Fixpoint digits_value (acc : N) (ds : str) : N :=
  match ds with
  | [] => acc
  | c :: rest => digits_value (acc * 10 + (c - 48)) rest
  end.

(** The parts of a number at the head of [s]: an optional minus sign; then
    a single 0, or a digit from 1 to 9 followed by any digits; then
    optionally a dot and at least one digit; then optionally e or E, an
    optional sign and at least one digit. *)
Definition number_sign (s : str) : str * str :=
  match s with
  | c :: t => if c =? 45 then ([c], t) else ([], s)
  | [] => ([], s)
  end.

Definition number_int (s : str) : option (str * str) :=
  match s with
  | c :: t =>
      if (49 <=? c) && (c <=? 57)
      then let '(ds, rest) := span_digits t in Some (c :: ds, rest)
      else if c =? 48 then Some ([c], t)
      else None
  | [] => None
  end.

Definition number_frac (s : str) : str * str :=
  match s with
  | dot :: d :: t =>
      if (dot =? 46) && is_digit d
      then let '(ds, rest) := span_digits t in (dot :: d :: ds, rest)
      else ([], s)
  | _ => ([], s)
  end.

Definition number_exp (s : str) : str * str :=
  match s with
  | e :: t =>
      if (e =? 101) || (e =? 69) then
        let '(esign, t') :=
          match t with
          | sg :: ((_ :: _) as t') =>
              if (sg =? 45) || (sg =? 43) then ([sg], t') else ([], t)
          | _ => ([], t)
          end in
        let '(ds, rest) := span_digits t' in
        match ds with
        | [] => ([], s)
        | _ :: _ => (e :: esign ++ ds, rest)
        end
      else ([], s)
  | [] => ([], s)
  end.

(** A fraction or an exponent makes the number a float. *)
Definition match_number (s : str) : scan pyval :=
  let '(sign, s0) := number_sign s in
  match number_int s0 with
  | None => Invalid
  | Some (int_digits, s1) =>
      let '(frac, s2) := number_frac s1 in
      let '(expo, s3) := number_exp s2 in
      match frac, expo with
      | [], [] =>
          let n := Z.of_N (digits_value 0 int_digits) in
          Parsed (PyInt (match sign with [] => n | _ :: _ => Z.opp n end)) s3
      | _, _ => Parsed (PyFloat (sign ++ int_digits ++ frac ++ expo)) s3
      end
  end.

(** [d[k] = v]: a key already present keeps its position. *)
Fixpoint dict_set (k : str) (v : pyval) (items : list (str * pyval))
  : list (str * pyval) :=
  match items with
  | [] => [(k, v)]
  | (k', v') :: rest =>
      if str_eqb k k' then (k, v) :: rest else (k', v') :: dict_set k v rest
  end.

Definition constant (lexeme : string) (v : pyval) (s : str) : scan pyval :=
  match strip_prefix (u lexeme) s with
  | Some rest => Parsed v rest
  | None => match_number s
  end.

(** Whether [s] starts with the character [c], and what follows it. *)
Definition expect (c : char) (s : str) : option str :=
  match s with
  | x :: rest => if x =? c then Some rest else None
  | [] => None
  end.

Fixpoint scan_once (fuel : nat) (s : str) {struct fuel} : scan pyval :=
  match fuel with
  | O => OutOfFuel
  | S fuel' =>
      match s with
      | [] => Invalid
      | c :: rest =>
          if c =? QUOTE then
            match scanstring [] rest with
            | Some (t, rest') => Parsed (PyStr t) rest'
            | None => Invalid
            end
          else if c =? 123 then
            match expect 125 (skip_whitespace rest) with
            | Some rest' => Parsed (PyDict []) rest'
            | None => parse_object fuel' [] (skip_whitespace rest)
            end
          else if c =? 91 then
            match expect 93 (skip_whitespace rest) with
            | Some rest' => Parsed (PyList []) rest'
            | None => parse_array fuel' [] (skip_whitespace rest)
            end
          else if c =? 110 then constant "null" PyNone s
          else if c =? 116 then constant "true" (PyBool true) s
          else if c =? 102 then constant "false" (PyBool false) s
          else if c =? 78 then constant "NaN" (PyFloat (u "NaN")) s
          else if c =? 73 then constant "Infinity" (PyFloat (u "Infinity")) s
          else if c =? 45
          then constant "-Infinity" (PyFloat (u "-Infinity")) s
          else match_number s
      end
  end

(** The elements of an array, [s] being at the start of one. *)
with parse_array (fuel : nat) (acc : list pyval) (s : str) {struct fuel}
  : scan pyval :=
  match fuel with
  | O => OutOfFuel
  | S fuel' =>
      match scan_once fuel' s with
      | Parsed v s1 =>
          match expect 93 (skip_whitespace s1) with
          | Some s2 => Parsed (PyList (acc ++ [v])) s2
          | None =>
              match expect 44 (skip_whitespace s1) with
              | Some s2 =>
                  parse_array fuel' (acc ++ [v]) (skip_whitespace s2)
              | None => Invalid
              end
          end
      | Invalid => Invalid
      | OutOfFuel => OutOfFuel
      end
  end

(** The members of an object, [s] being at the start of a key. *)
with parse_object (fuel : nat) (acc : list (str * pyval)) (s : str)
  {struct fuel} : scan pyval :=
  match fuel with
  | O => OutOfFuel
  | S fuel' =>
      match expect QUOTE s with
      | None => Invalid
      | Some s0 =>
          match scanstring [] s0 with
          | None => Invalid
          | Some (key, s1) =>
              match expect 58 (skip_whitespace s1) with
              | None => Invalid
              | Some s2 =>
                  match scan_once fuel' (skip_whitespace s2) with
                  | Parsed v s3 =>
                      match expect 125 (skip_whitespace s3) with
                      | Some s4 => Parsed (PyDict (dict_set key v acc)) s4
                      | None =>
                          match expect 44 (skip_whitespace s3) with
                          | Some s4 =>
                              parse_object fuel' (dict_set key v acc)
                                (skip_whitespace s4)
                          | None => Invalid
                          end
                      end
                  | Invalid => Invalid
                  | OutOfFuel => OutOfFuel
                  end
              end
          end
      end
  end.

Definition loads_fuel (s : str) : nat := (2 * List.length s + 1)%nat.

(** [json.loads(s)]: [None] stands for the [JSONDecodeError] it raises. *)
Definition loads (s : str) : option pyval :=
  match scan_once (loads_fuel s) (skip_whitespace s) with
  | Parsed v rest =>
      match skip_whitespace rest with
      | [] => Some v
      | _ => None
      end
  | _ => None
  end.

(* ================================================================== *)
(** * [scripts/servers/http/main.py] *)

Module Http.

(** ** Console styles *)
Definition DIM : str := ESC :: u "[2m".
Definition BOLD : str := ESC :: u "[1m".
Definition RESET : str := ESC :: u "[0m".
Definition MAGENTA : str := ESC :: u "[35m".
Definition BLUE : str := ESC :: u "[34m".

(** The rules are runs of the box-drawing character U+2500. *)
Definition rule (n : nat) : str := repeat 9472 n.

(** ** Process state and effects

    [batch_count] is the module-level counter; [stdout] is the console.
    A raised exception keeps every effect made before it. *)
Record world : Type := { batch_count : N; stdout : list str }.

Inductive exn : Type :=
| BadRequest                       (* raised by [request.get_json()] *)
| NoLen (type_name : string)       (* [TypeError] of [len] *)
| NotIterable (type_name : string) (* [TypeError] of iteration *)
| IndexOutOfRange                  (* [IndexError] of [lines[0]] *)
| EncodeError (c : char) (start stop : N).
                                   (* [UnicodeEncodeError] of [print]: the
                                      first surrogate of the text and the
                                      positions of the run it starts *)

(** [str(e)] *)
Definition exn_str (e : exn) : str :=
  match e with
  | BadRequest =>
      u "400 Bad Request: The browser (or proxy) sent a request that this server could not understand."
  | NoLen t => u "object of type '" ++ u t ++ u "' has no len()"
  | NotIterable t => u "'" ++ u t ++ u "' object is not iterable"
  | IndexOutOfRange => u "list index out of range"
  | EncodeError c start stop =>
      if stop =? start + 1
      then u "'utf-8' codec can't encode character '\u" ++ hex4 c
           ++ u "' in position " ++ str_of_N start
           ++ u ": surrogates not allowed"
      else u "'utf-8' codec can't encode characters in position "
           ++ str_of_N start ++ u "-" ++ str_of_N (stop - 1)
           ++ u ": surrogates not allowed"
  end.

Inductive result (A : Type) : Type :=
| Ok (a : A)
| Raise (e : exn).
Arguments Ok {A} a.
Arguments Raise {A} e.

Definition M (A : Type) : Type := world -> result A * world.

Definition ret {A} (a : A) : M A := fun w => (Ok a, w).

Definition bind {A B} (m : M A) (k : A -> M B) : M B :=
  fun w => match m w with
           | (Ok a, w') => k a w'
           | (Raise e, w') => (Raise e, w')
           end.

Definition raise {A} (e : exn) : M A := fun w => (Raise e, w).

Definition try_except {A} (m : M A) (handler : exn -> M A) : M A :=
  fun w => match m w with
           | (Ok a, w') => (Ok a, w')
           | (Raise e, w') => handler e w'
           end.

Notation "x <- m ;; k" := (bind m (fun x => k))
  (at level 61, m at next level, right associativity).
Notation "m ;; k" := (bind m (fun _ => k))
  (at level 61, right associativity).

(** The console is a UTF-8 text stream with the strict error handler, as
    the interpreter sets it up under a UTF-8 locale.  The codec stops at the
    first surrogate and reports the run of surrogates that starts there. *)
Fixpoint surrogate_run (s : str) : N :=
  match s with
  | c :: rest => if is_surrogate c then 1 + surrogate_run rest else 0
  | [] => 0
  end.

Fixpoint find_surrogate (pos : N) (s : str) : option exn :=
  match s with
  | [] => None
  | c :: rest =>
      if is_surrogate c then Some (EncodeError c pos (pos + surrogate_run s))
      else find_surrogate (pos + 1) rest
  end.

Definition encode_error (line : str) : option exn := find_surrogate 0 line.

(** [print(line)]: the text is encoded as a whole before anything is
    written, so a text that the console cannot encode raises and leaves the
    console as it was. *)
Definition print (line : str) : M unit :=
  fun w => match encode_error line with
           | Some e => (Raise e, w)
           | None => (Ok tt, {| batch_count := batch_count w;
                                stdout := stdout w ++ [line] |})
           end.

(** [batch_count += 1] *)
Definition incr_batch_count : M unit :=
  fun w => (Ok tt, {| batch_count := batch_count w + 1; stdout := stdout w |}).

(** A read of the global [batch_count] *)
Definition get_batch_count : M N := fun w => (Ok (batch_count w), w).

Fixpoint for_each {A} (body : A -> M unit) (l : list A) : M unit :=
  match l with
  | [] => ret tt
  | x :: rest => body x ;; for_each body rest
  end.

(** [for i, x in enumerate(l)], counting from [i] *)
Fixpoint for_enumerate {A} (body : N -> A -> M unit) (i : N) (l : list A)
  : M unit :=
  match l with
  | [] => ret tt
  | x :: rest => body i x ;; for_enumerate body (i + 1) rest
  end.

(** ** The request as the handler sees it

    [remote_addr] is the address of the peer as the server took it from the
    socket, an IP address in text form; [body] is the decoded request body
    of a request that declares JSON content; [clock] is what
    [datetime.now().strftime(...)] yields when the handler asks, digits and
    punctuation.  The address and the clock reading are ASCII text, the
    body is any text. *)
Record request : Type := { remote_addr : string; body : str; clock : string }.

(** The response: the value given to [jsonify] and the status code. *)
Record response : Type := { payload : pyval; status : N }.

(** [len(v)] *)
Definition py_len (v : pyval) : M N :=
  match v with
  | PyStr s => ret (N.of_nat (List.length s))
  | PyList l => ret (N.of_nat (List.length l))
  | PyDict d => ret (N.of_nat (List.length d))
  | PyNone => raise (NoLen "NoneType")
  | PyBool _ => raise (NoLen "bool")
  | PyInt _ => raise (NoLen "int")
  | PyFloat _ => raise (NoLen "float")
  end.

(** The items that iterating over [v] yields: the elements of a list, the
    characters of a text, the keys of a dict. *)
Definition py_iter (v : pyval) : M (list pyval) :=
  match v with
  | PyStr s => ret (map (fun c => PyStr [c]) s)
  | PyList l => ret l
  | PyDict d => ret (map (fun kv => PyStr (fst kv)) d)
  | PyNone => raise (NotIterable "NoneType")
  | PyBool _ => raise (NotIterable "bool")
  | PyInt _ => raise (NotIterable "int")
  | PyFloat _ => raise (NotIterable "float")
  end.

(** [lines[0]] *)
Definition first_line (lines : list str) : M str :=
  match lines with
  | l0 :: _ => ret l0
  | [] => raise IndexOutOfRange
  end.

(** [datetime.now().strftime("%Y-%m-%d %H:%M:%S.%f")[:-3]] *)
Definition get_timestamp (now : str) : str :=
  firstn (List.length now - 3) now.

(** [request.get_json()] *)
Definition get_json (req : request) : M pyval :=
  match loads (body req) with
  | Some v => ret v
  | None => raise BadRequest
  end.

Section Handler.
Context {rt : Runtime}.

Definition entry_content (entry : pyval) : str :=
  match entry with
  | PyDict _ => dumps_indent2 entry
  | _ => py_str entry
  end.

Definition entry_prefix (i : N) : str :=
  BLUE ++ fmt_0w 2 (i + 1) ++ RESET ++ u " ".

(** The body of the loop over [enumerate(batch)]. *)
Definition print_entry (i : N) (entry : pyval) : M unit :=
  let content := entry_content entry in
  let prefix := entry_prefix i in
  let lines := splitlines content in
  l0 <- first_line lines ;;
  print (prefix ++ l0) ;;
  for_each (fun line => print (u "   " ++ line)) (tl lines).

Definition batch_header (n : N) : str :=
  NEWLINE :: BOLD ++ MAGENTA ++ u "BATCH #" ++ fmt_0w 4 n ++ RESET ++ u " "
  ++ DIM ++ rule 48 ++ RESET.

Definition separator : str := DIM ++ rule 61 ++ RESET.

Definition success (processed : N) : response :=
  {| payload := PyDict [(u "status", PyStr (u "success"));
                        (u "processed", PyInt (Z.of_N processed))];
     status := 200 |}.

Definition failure (e : exn) : response :=
  {| payload := PyDict [(u "status", PyStr (u "error"));
                        (u "message", PyStr (exn_str e))];
     status := 400 |}.

(** The first two statements of the [try] block: the body is parsed,
    then the counter is advanced. *)
Definition begin_batch (req : request) : M pyval :=
  batch <- get_json req ;;
  incr_batch_count ;;
  ret batch.

(** The rest of the [try] block.  The header shows the value that the
    global counter has when the header is printed. *)
Definition render_batch (req : request) (batch : pyval) : M response :=
  let client_ip := u (remote_addr req) in
  n <- get_batch_count ;;
  print (batch_header n) ;;
  print (DIM ++ u "Source: " ++ RESET ++ u " " ++ client_ip) ;;
  volume <- py_len batch ;;
  print (DIM ++ u "Volume: " ++ RESET ++ u " " ++ str_of_N volume
         ++ u " entries") ;;
  print (DIM ++ u "Received:" ++ RESET ++ u " "
         ++ get_timestamp (u (clock req))) ;;
  print separator ;;
  entries <- py_iter batch ;;
  for_enumerate print_entry 0 entries ;;
  print separator ;;
  processed <- py_len batch ;;
  ret (success processed).

(** The [try] block of [receive_logs]. *)
Definition process_batch (req : request) : M response :=
  batch <- begin_batch req ;;
  render_batch req batch.

(** The [except Exception as e] clause. *)
Definition on_error (e : exn) : M response :=
  print (BOLD ++ u "Error processing batch:" ++ RESET ++ u " "
         ++ exn_str e) ;;
  ret (failure e).

Definition receive_logs (req : request) : M response :=
  try_except (process_batch req) on_error.

(** The process when requests are handled one after the other, starting
    with [batch_count = 0] and an empty console.  An exception that left
    [receive_logs] would be answered by the framework, not by this code;
    there is none, see [receive_logs_expected]. *)
Definition fresh : world := {| batch_count := 0; stdout := [] |}.

Fixpoint serve (reqs : list request) (w : world) : list response * world :=
  match reqs with
  | [] => ([], w)
  | req :: rest =>
      match receive_logs req w with
      | (Ok resp, w') =>
          let '(resps, w'') := serve rest w' in (resp :: resps, w'')
      | (Raise _, w') => serve rest w'
      end
  end.

(** ** Two requests at the same time

    The development server that [app.run] starts handles each request in a
    thread of its own, and [receive_logs] takes no lock: between the
    statement that advances the counter and the one that prints the header,
    which reads the counter again, another thread can run.  A thread that
    was suspended there carries the outcome of its first two statements. *)
Definition resume_batch (req : request) (begun : result pyval) : M response :=
  try_except
    (match begun with
     | Ok batch => render_batch req batch
     | Raise e => raise e
     end)
    on_error.

(** Both threads advance the counter, then the first one goes on to its
    end, then the second one. *)
Definition overlapped (req1 req2 : request) (w : world)
  : result response * result response * world :=
  let '(begun1, w1) := begin_batch req1 w in
  let '(begun2, w2) := begin_batch req2 w1 in
  let '(resp1, w3) := resume_batch req1 begun1 w2 in
  let '(resp2, w4) := resume_batch req2 begun2 w3 in
  (resp1, resp2, w4).

End Handler.

(** The batch identifier shown by a console line, if it is a block header. *)
Definition header_id (line : str) : option N :=
  match strip_prefix (NEWLINE :: BOLD ++ MAGENTA ++ u "BATCH #") line with
  | Some rest => Some (digits_value 0 (fst (span_digits rest)))
  | None => None
  end.

Definition header_ids (console : list str) : list N :=
  flat_map (fun line => match header_id line with
                        | Some n => [n]
                        | None => []
                        end) console.

End Http.

(* ================================================================== *)
(** * [scripts/servers/socket/main.py] *)

Module Socket.

Definition DIM : str := ESC :: u "[2m".
Definition BOLD : str := ESC :: u "[1m".
Definition RESET : str := ESC :: u "[0m".
Definition BLUE : str := ESC :: u "[34m".
Definition CYAN : str := ESC :: u "[36m".
Definition GREEN : str := ESC :: u "[32m".
Definition YELLOW : str := ESC :: u "[33m".

Definition rule (n : nat) : str := repeat 9472 n.

(** The server object shared by every connection handler ([host] and [port]
    are read by [run] only) and the console. *)
Record world : Type := { message_count : N; stdout : list str }.

(** Everything this endpoint prints can be encoded: a text message arrives
    as valid UTF-8, which holds no surrogate, and the encoder of
    [json.dumps] writes ASCII. *)
Definition print (line : str) (w : world) : world :=
  {| message_count := message_count w; stdout := stdout w ++ [line] |}.

Definition print_all (lines : list str) (w : world) : world :=
  fold_left (fun w' line => print line w') lines w.

(** [websocket.remote_address] *)
Record address : Type := { host : str; port : N }.

Definition show_address (a : address) : str :=
  host a ++ u ":" ++ str_of_N (port a).

Definition get_timestamp (now : str) : str :=
  firstn (List.length now - 3) now.

Section Handler.
Context {rt : Runtime}.

(** The [try]/[except] around [json.loads] and [json.dumps]: the text to
    show and whether the message was structured. *)
Definition detect (message : str) : str * bool :=
  match loads message with
  | Some data => (dumps_indent2 data, true)
  | None => (message, false)
  end.

Definition format_label (is_struct : bool) : str :=
  if is_struct then u "Structured (JSON)" else u "Plain Text".

Definition entry_header (n : N) : str :=
  NEWLINE :: BOLD ++ CYAN ++ u "ENTRY #" ++ fmt_0w 4 n ++ RESET ++ u " "
  ++ DIM ++ rule 48 ++ RESET.

Definition separator : str := DIM ++ rule 61 ++ RESET.

(** The console block of one entry. *)
Definition entry_block (n : N) (client_addr : address) (now : str)
  (content : str) (is_struct : bool) : list str :=
  [entry_header n;
   DIM ++ u "Source:" ++ RESET ++ u " " ++ show_address client_addr;
   DIM ++ u "Time:  " ++ RESET ++ u " " ++ get_timestamp now;
   DIM ++ u "Format:" ++ RESET ++ u " " ++ format_label is_struct;
   separator]
  ++ map (fun line => u "  " ++ line) (splitlines content)
  ++ [separator].

(** One turn of the [async for] loop.  Nothing in the loop body awaits, so a
    turn runs to its end before any other handler is resumed. *)
Definition on_message (client_addr : address) (now : str) (message : str)
  (w : world) : world :=
  let w1 := {| message_count := message_count w + 1; stdout := stdout w |} in
  let '(content, is_struct) := detect message in
  print_all
    (entry_block (message_count w1) client_addr now content is_struct) w1.

(** What a connection delivers to its handler: a text message, with the
    clock reading taken while it is handled, or the end of the connection. *)
Inductive frame : Type :=
| Message (now : str) (message : str)
| ClosedOK                      (* the iteration ends *)
| ClosedError (now : str).      (* [ConnectionClosed] is raised *)

Inductive handler_state : Type :=
| Receiving
| Returned.

(** Start of [handler]: up to the first wait for a message. *)
Definition handler_start (client_addr : address) (now : str) (w : world)
  : handler_state * world :=
  (Receiving,
   print (DIM ++ u "[" ++ get_timestamp now ++ u "]" ++ RESET ++ u " "
          ++ GREEN ++ u "Connection established" ++ RESET ++ u " from "
          ++ show_address client_addr) w).

(** The handler is resumed with what its connection delivered. *)
Definition handler_resume (client_addr : address) (f : frame) (w : world)
  : handler_state * world :=
  match f with
  | Message now message => (Receiving, on_message client_addr now message w)
  | ClosedOK => (Returned, w)
  | ClosedError now =>
      (Returned,
       print (DIM ++ u "[" ++ get_timestamp now ++ u "]" ++ RESET ++ u " "
              ++ YELLOW ++ u "Connection closed" ++ RESET ++ u " "
              ++ show_address client_addr) w)
  end.

(** The whole life of one handler, given everything its connection
    delivers; frames after the handler returned are never read. *)
Fixpoint handler_loop (client_addr : address) (frames : list frame)
  (w : world) : handler_state * world :=
  match frames with
  | [] => (Receiving, w)
  | f :: rest =>
      match handler_resume client_addr f w with
      | (Receiving, w') => handler_loop client_addr rest w'
      | (Returned, w') => (Returned, w')
      end
  end.

Definition handler (client_addr : address) (now : str) (frames : list frame)
  (w : world) : handler_state * world :=
  handler_loop client_addr frames (snd (handler_start client_addr now w)).

(** ** Several connections

    The event loop resumes one handler at a time; a run of the server is the
    sequence of these resumptions, in the order the loop performed them. *)
Inductive event : Type :=
| Accepted (client_addr : address) (now : str)
| Delivered (client_addr : address) (f : frame).

Definition step (w : world) (e : event) : world :=
  match e with
  | Accepted a now => snd (handler_start a now w)
  | Delivered a f => snd (handler_resume a f w)
  end.

Definition fresh : world := {| message_count := 0; stdout := [] |}.

Definition run (trace : list event) (w : world) : world :=
  fold_left step trace w.

Definition is_message (e : event) : bool :=
  match e with
  | Delivered _ (Message _ _) => true
  | _ => false
  end.

End Handler.

(** The entry identifier shown by a console line, if it is a block header. *)
Definition header_id (line : str) : option N :=
  match strip_prefix (NEWLINE :: BOLD ++ CYAN ++ u "ENTRY #") line with
  | Some rest => Some (digits_value 0 (fst (span_digits rest)))
  | None => None
  end.

Definition header_ids (console : list str) : list N :=
  flat_map (fun line => match header_id line with
                        | Some n => [n]
                        | None => []
                        end) console.

End Socket.

(* ================================================================== *)
(** * An interpreter for closed examples

    Floats written in their shortest form print as written, and the
    printable characters from 128 to 255 are those of Latin-1.  The examples
    below hold no other float and no character beyond ASCII. *)

Definition sample_runtime : Runtime :=
  {| float_repr_chars := fun lexeme => match lexeme with
                                       | [] => (48, [])
                                       | c :: rest => (c, rest)
                                       end;
     isprintable := fun c => (161 <=? c) && (c <? 256) && negb (c =? 173) |}.

(* ================================================================== *)
(** * Vocabulary of the statements *)

(** The identifiers [1, 2, ..., m]. *)
Definition ids_upto (m : nat) : list N := map N.of_nat (seq 1 m).

Module HttpSpec.
Import Http.

Section Spec.
Context {rt : Runtime}.

(** The lines of one entry as the endpoint's description has them: the
    first line of its text behind the index, every other line behind three
    spaces. *)
Definition entry_lines (i : N) (entry : pyval) : list str :=
  match splitlines (entry_content entry) with
  | [] => []
  | l0 :: others =>
      (entry_prefix i ++ l0) :: map (fun line : str => u "   " ++ line) others
  end.

(** What printing [lines] one after the other writes, and the error that
    stops it, if one of them cannot be encoded. *)
Fixpoint print_lines (lines : list str) : list str * option exn :=
  match lines with
  | [] => ([], None)
  | line :: rest =>
      match encode_error line with
      | Some e => ([], Some e)
      | None => let '(out, stop) := print_lines rest in (line :: out, stop)
      end
  end.

(** What the loop body prints for one entry, and the error that stops it:
    the text of the entry has no line, or one of its lines cannot be
    encoded. *)
Definition entry_output (i : N) (entry : pyval) : list str * option exn :=
  match splitlines (entry_content entry) with
  | [] => ([], Some IndexOutOfRange)
  | _ :: _ => print_lines (entry_lines i entry)
  end.

(** What the loop over the entries prints, counting from [i], and the
    error that stops it before its end, if any. *)
Fixpoint loop_output (i : N) (entries : list pyval)
  : list str * option exn :=
  match entries with
  | [] => ([], None)
  | e :: rest =>
      match entry_output i e with
      | (out, Some err) => (out, Some err)
      | (out, None) =>
          let '(more, stop) := loop_output (i + 1) rest in
          (out ++ more, stop)
      end
  end.

Definition outcome (stop : option exn) : result unit :=
  match stop with
  | None => Ok tt
  | Some e => Raise e
  end.

(** [w] with [out] written to the console. *)
Definition emit (out : list str) (w : world) : world :=
  {| batch_count := batch_count w; stdout := stdout w ++ out |}.

Definition source_line (req : request) : str :=
  DIM ++ u "Source: " ++ RESET ++ u " " ++ u (remote_addr req).

Definition volume_line (volume : N) : str :=
  DIM ++ u "Volume: " ++ RESET ++ u " " ++ str_of_N volume ++ u " entries".

Definition received_line (req : request) : str :=
  DIM ++ u "Received:" ++ RESET ++ u " " ++ get_timestamp (u (clock req)).

Definition error_line (e : exn) : str :=
  BOLD ++ u "Error processing batch:" ++ RESET ++ u " " ++ exn_str e.

(** The length and the items of a value that has them, or the error of
    [len]. *)
Definition sized (v : pyval) : exn + N * list pyval :=
  match v with
  | PyStr s => inr (N.of_nat (List.length s), map (fun c => PyStr [c]) s)
  | PyList l => inr (N.of_nat (List.length l), l)
  | PyDict d =>
      inr (N.of_nat (List.length d), map (fun kv => PyStr (fst kv)) d)
  | PyNone => inl (NoLen "NoneType")
  | PyBool _ => inl (NoLen "bool")
  | PyInt _ => inl (NoLen "int")
  | PyFloat _ => inl (NoLen "float")
  end.

(** What the part of the [try] block after the counter was advanced
    writes for [batch] when the counter reads [n], and how it ends: the
    value has no length; the loop over its entries stops early; the block
    is complete. *)
Definition block (req : request) (batch : pyval) (n : N)
  : list str * result response :=
  match sized batch with
  | inl e => ([batch_header n; source_line req], Raise e)
  | inr (volume, entries) =>
      let head :=
        [batch_header n; source_line req; volume_line volume;
         received_line req; separator]
        ++ fst (loop_output 0 entries) in
      match snd (loop_output 0 entries) with
      | None => (head ++ [separator], Ok (success volume))
      | Some e => (head, Raise e)
      end
  end.

(** The answer to an outcome of the [try] block, and the line that the
    [except] clause adds. *)
Definition answered (r : result response) : response * list str :=
  match r with
  | Ok resp => (resp, [])
  | Raise e => (failure e, [error_line e])
  end.

(** The answer to [req] and the state it leaves when nothing else runs
    meanwhile: the body does not parse, or it parses, the counter advances
    and the block is written under the new value. *)
Definition expected (req : request) (w : world) : response * world :=
  match loads (body req) with
  | None => (failure BadRequest, emit [error_line BadRequest] w)
  | Some batch =>
      let n := batch_count w + 1 in
      let w1 := {| batch_count := n; stdout := stdout w |} in
      let '(out, r) := block req batch n in
      (fst (answered r), emit (out ++ snd (answered r)) w1)
  end.

Definition parsed (req : request) : bool :=
  match loads (body req) with
  | Some _ => true
  | None => false
  end.

(** The console lines written between the states [w] and [w']. *)
Definition printed_since (w w' : world) : list str :=
  skipn (List.length (stdout w)) (stdout w').

(** The console lines written while [req] is handled in state [w]. *)
Definition printed_by (req : request) (w : world) : list str :=
  printed_since w (snd (receive_logs req w)).

(** The identifiers in the block headers of the requests answered with
    status 200, in order. *)
Fixpoint successful_ids (reqs : list request) (w : world) : list N :=
  match reqs with
  | [] => []
  | req :: rest =>
      let '(r, w') := receive_logs req w in
      match r with
      | Ok resp =>
          (if status resp =? 200 then header_ids (printed_by req w) else [])
          ++ successful_ids rest w'
      | Raise _ => successful_ids rest w'
      end
  end.

End Spec.

(** A request from the local host with the given body. *)
Definition post (text : str) : request :=
  {| remote_addr := "127.0.0.1"; body := text;
     clock := "2024-05-06 07:08:09.123456" |}.

(** The body [{"a":1}]: valid JSON, not an array. *)
Definition object_body : str := u "{" ++ QUOTE :: u "a" ++ QUOTE :: u ":1}".

(** The JSON array whose only entry is the empty text. *)
Definition array_of_empty_text : str := u "[" ++ [QUOTE; QUOTE] ++ u "]".

(** The JSON array of the empty text and the text [a]. *)
Definition array_of_empty_text_and_a : str :=
  u "[" ++ [QUOTE; QUOTE] ++ u ", " ++ QUOTE :: u "a" ++ QUOTE :: u "]".

Definition is_array (v : pyval) : bool :=
  match v with
  | PyList _ => true
  | _ => false
  end.

(** C1 as written: a body that is not JSON, or is JSON but not an array, is
    answered with status 400 and leaves the counter alone. *)
Definition non_arrays_rejected : Prop :=
  forall (rt : Runtime) (req : request) (w : world),
    match loads (body req) with
    | None => True
    | Some v => is_array v = false
    end ->
    exists resp w',
      receive_logs req w = (Ok resp, w')
      /\ status resp = 400
      /\ batch_count w' = batch_count w.

(** C3 as written: the successful batches carry the identifiers 1, 2, 3,
    ... without a gap. *)
Definition successes_numbered_consecutively : Prop :=
  forall (rt : Runtime) (reqs : list request),
    successful_ids reqs fresh
    = ids_upto (List.length (successful_ids reqs fresh)).

End HttpSpec.

Module SocketSpec.
Import Socket.

(** A client of the examples. *)
Definition client : address := {| host := u "127.0.0.1"; port := 50000 |}.

(** The two messages of the scenario, read literally: the first one carries
    its double quotes. *)
Definition quoted_hello : str := QUOTE :: u "hello" ++ [QUOTE].
Definition object_a1 : str := u "{" ++ QUOTE :: u "a" ++ QUOTE :: u ":1}".

(** C9 as written: the quoted message is shown as plain text [hello], the
    object as structured. *)
Definition scenario_as_written : Prop :=
  forall (rt : Runtime) (a : address) (now1 now2 : str),
    stdout (run [Delivered a (Message now1 quoted_hello);
                 Delivered a (Message now2 object_a1)] fresh)
    = entry_block 1 a now1 (u "hello") false
      ++ entry_block 2 a now2
           (dumps_indent2 (PyDict [(u "a", PyInt 1)])) true.

End SocketSpec.

(* ================================================================== *)
(** * Vocabulary of the further properties *)

(** A character that is no line boundary. *)
Definition not_linebreak (c : char) : bool := negb (is_linebreak c).

Module Clock.

(** A reading of [datetime.now()]: its fields.  Years have four digits, as
    every reading of a present-day clock has. *)
Record datetime : Type := {
  year : N; month : N; day : N;
  hour : N; minute : N; second : N; microsecond : N
}.

(** The part of [strftime("%Y-%m-%d %H:%M:%S.%f")] up to the seconds. *)
Definition to_the_second (dt : datetime) : str :=
  fmt_0w 4 (year dt) ++ u "-" ++ fmt_0w 2 (month dt) ++ u "-"
  ++ fmt_0w 2 (day dt) ++ u " " ++ fmt_0w 2 (hour dt) ++ u ":"
  ++ fmt_0w 2 (minute dt) ++ u ":" ++ fmt_0w 2 (second dt).

(** [dt.strftime("%Y-%m-%d %H:%M:%S.%f")]: the microseconds on six
    digits. *)
Definition strftime (dt : datetime) : str :=
  to_the_second dt ++ u "." ++ fmt_0w 6 (microsecond dt).

End Clock.

Module HttpMore.
Import Http.

(** A console line that starts with the colour of the entry index. *)
Definition is_index_line (line : str) : bool :=
  match strip_prefix BLUE line with
  | Some _ => true
  | None => false
  end.

End HttpMore.

Module SocketMore.
Import Socket.

Definition is_close (f : frame) : bool :=
  match f with
  | Message _ _ => false
  | ClosedOK | ClosedError _ => true
  end.

(** The frames that a handler reads: those up to the first end of the
    connection, this one included. *)
Fixpoint frames_read (frames : list frame) : list frame :=
  match frames with
  | [] => []
  | f :: rest => if is_close f then [f] else f :: frames_read rest
  end.

(** The resumptions of the handler of one connection. *)
Definition connection_events (client_addr : address) (now : str)
  (frames : list frame) : list event :=
  Accepted client_addr now :: map (Delivered client_addr) (frames_read frames).

Definition is_message_frame (f : frame) : bool := negb (is_close f).

End SocketMore.

(* ================================================================== *)
(** * Pretty-printed JSON, line by line

    What the endpoints' description asks of a structured entry, said
    without reference to the encoder: one member per line, in the order
    the container holds them, each level of nesting two spaces deeper. *)

Module Pretty.

Section Lines.
Context {rt : Runtime}.

(** [line] behind two spaces for each level of nesting. *)
Definition indent (depth : nat) (line : str) : str :=
  repeat SPACE (2 * depth) ++ line.

(** The text of a value that takes one line: a scalar or an empty
    container. *)
Definition atom (v : pyval) : str :=
  match v with
  | PyNone => u "null"
  | PyBool true => u "true"
  | PyBool false => u "false"
  | PyInt z => str_of_Z z
  | PyFloat lexeme => floatstr lexeme
  | PyStr s => encode_basestring_ascii s
  | PyList _ => u "[]"
  | PyDict _ => u "{}"
  end.

(** The lines of a member put in its container: the first one goes behind
    the indentation of the member and its label (the key and a colon in a
    dict, nothing in a list); the other lines are indented already. *)
Definition place (depth : nat) (label : str) (lines : list str) : list str :=
  match lines with
  | [] => []
  | first :: others => indent depth (label ++ first) :: others
  end.

(** A comma at the end of the last line. *)
Fixpoint with_comma (lines : list str) : list str :=
  match lines with
  | [] => []
  | [line] => [line ++ u ","]
  | line :: rest => line :: with_comma rest
  end.

(** The members one under the other, in the order given, a comma after
    each but the last. *)
Fixpoint members (ms : list (list str)) : list str :=
  match ms with
  | [] => []
  | [m] => m
  | m :: rest => with_comma m ++ members rest
  end.

(** The lines of [v] when it stands [depth] levels deep.  The first line
    carries no indentation, it continues the line of the container. *)
Fixpoint pretty_lines (depth : nat) (v : pyval) : list str :=
  match v with
  | PyList ((_ :: _) as items) =>
      u "["
      :: members (map (fun x => place (S depth) []
                                  (pretty_lines (S depth) x)) items)
      ++ [indent depth (u "]")]
  | PyDict ((_ :: _) as items) =>
      u "{"
      :: members (map (fun kv =>
                         place (S depth)
                           (encode_basestring_ascii (fst kv) ++ u ": ")
                           (pretty_lines (S depth) (snd kv))) items)
      ++ [indent depth (u "}")]
  | _ => [atom v]
  end.

(** A line that is not empty and holds printable ASCII only. *)
Definition printable_line (line : str) : Prop :=
  plain line = true /\ line <> [].

(** Every float of [v] prints in printable ASCII, as the floats of the
    interpreter do. *)
Fixpoint plain_floats (v : pyval) : bool :=
  match v with
  | PyFloat lexeme => plain (float_repr lexeme)
  | PyList items => forallb plain_floats items
  | PyDict items => forallb (fun kv => plain_floats (snd kv)) items
  | _ => true
  end.

End Lines.

(** The object [{"b": 1, "a": {"c": [2, true]}}], keys not in alphabetical
    order. *)
Definition nested : pyval :=
  PyDict [(u "b", PyInt 1);
          (u "a", PyDict [(u "c", PyList [PyInt 2; PyBool true])])].

Definition nested_text : str :=
  u "{" ++ QUOTE :: u "b" ++ QUOTE :: u ": 1, " ++ QUOTE :: u "a" ++ QUOTE
  :: u ": {" ++ QUOTE :: u "c" ++ QUOTE :: u ": [2, true]}}".

Definition nested_lines : list str :=
  [u "{";
   u "  " ++ QUOTE :: u "b" ++ QUOTE :: u ": 1,";
   u "  " ++ QUOTE :: u "a" ++ QUOTE :: u ": {";
   u "    " ++ QUOTE :: u "c" ++ QUOTE :: u ": [";
   u "      2,";
   u "      true";
   u "    ]";
   u "  }";
   u "}"].

End Pretty.

(* ================================================================== *)
(** * Facts about text *)

Lemma splitlines_from_nil (cur s : str) :
  splitlines_from cur s = [] <-> cur = [] /\ s = [].
Proof.
  revert cur; induction s as [|c rest IH]; intros cur; simpl.
  - destruct cur; split; intros H; try discriminate; auto.
    destruct H; discriminate.
  - destruct (is_linebreak c).
    + split; [discriminate | intros [_ H]; discriminate].
    + rewrite IH. split; intros [H1 H2]; try discriminate.
      destruct cur; discriminate.
Qed.

(** Only the empty text has no line. *)
Lemma splitlines_nil (s : str) : splitlines s = [] <-> s = [].
Proof.
  unfold splitlines. rewrite splitlines_from_nil. tauto.
Qed.

Lemma splitlines_from_no_break (cur s : str) :
  existsb is_linebreak s = false ->
  cur ++ s <> [] ->
  splitlines_from cur s = [cur ++ s].
Proof.
  revert cur; induction s as [|c rest IH]; intros cur Hno Hne; simpl.
  - rewrite app_nil_r in Hne. rewrite app_nil_r.
    destruct cur; [contradiction | reflexivity].
  - simpl in Hno. apply orb_false_iff in Hno as [Hc Hrest].
    rewrite Hc.
    replace (cur ++ c :: rest) with ((cur ++ [c]) ++ rest)
      by (rewrite <- app_assoc; reflexivity).
    apply IH; auto.
    destruct cur; discriminate.
Qed.

(** A text without line boundary is its own single line. *)
Lemma splitlines_single (s : str) :
  existsb is_linebreak s = false -> s <> [] -> splitlines s = [s].
Proof.
  intros Hno Hne. unfold splitlines.
  apply (splitlines_from_no_break [] s); auto.
Qed.

(** ** Decimal numerals *)

Lemma uint_codes_digits (d : Decimal.uint) :
  forallb is_digit (uint_codes d) = true.
Proof. induction d; simpl; auto. Qed.

Lemma digits_value_uint (d : Decimal.uint) (acc : N) :
  digits_value acc (uint_codes d)
  = DecimalPos.Unsigned.of_lu (Decimal.rev d)
    + acc * 10 ^ DecimalPos.Unsigned.usize d.
Proof.
  revert acc; induction d; intros acc; simpl uint_codes; simpl digits_value;
    [ simpl; lia | .. ];
    unfold Decimal.rev; simpl Decimal.revapp;
    rewrite DecimalPos.Unsigned.of_lu_revapp;
    rewrite IHd;
    simpl DecimalPos.Unsigned.of_lu; simpl DecimalPos.Unsigned.usize;
    rewrite N.pow_succ_r'; unfold Decimal.rev;
    generalize (10 ^ DecimalPos.Unsigned.usize d);
    generalize (DecimalPos.Unsigned.of_lu (Decimal.revapp d Nil));
    intros x y; nia.
Qed.

Lemma digits_value_str_of_N (n : N) : digits_value 0 (str_of_N n) = n.
Proof.
  unfold str_of_N. rewrite digits_value_uint.
  rewrite N.mul_0_l, N.add_0_r.
  rewrite <- DecimalPos.Unsigned.of_uint_alt.
  apply DecimalN.Unsigned.of_to.
Qed.

Lemma digits_value_zeros (k : nat) (s : str) :
  digits_value 0 (repeat 48 k ++ s) = digits_value 0 s.
Proof. induction k; simpl; auto. Qed.

(** Reading back a zero-filled number gives the number. *)
Lemma digits_value_fmt_0w (w : nat) (n : N) :
  digits_value 0 (fmt_0w w n) = n.
Proof.
  unfold fmt_0w. rewrite digits_value_zeros. apply digits_value_str_of_N.
Qed.

Lemma fmt_0w_digits (w : nat) (n : N) : forallb is_digit (fmt_0w w n) = true.
Proof.
  unfold fmt_0w, str_of_N. rewrite forallb_app, uint_codes_digits.
  rewrite andb_true_r. induction (w - _)%nat; simpl; auto.
Qed.

Lemma span_digits_app (ds rest : str) :
  forallb is_digit ds = true ->
  match rest with [] => True | c :: _ => is_digit c = false end ->
  span_digits (ds ++ rest) = (ds, rest).
Proof.
  induction ds as [|c ds IH]; simpl; intros Hd Hr.
  - destruct rest as [|c rest]; auto. simpl. rewrite Hr. reflexivity.
  - apply andb_true_iff in Hd as [Hc Hds]. rewrite Hc, IH; auto.
Qed.

(* ================================================================== *)
(** * The decoder consumes its input and has fuel enough *)

Lemma skip_whitespace_length (s : str) :
  (List.length (skip_whitespace s) <= List.length s)%nat.
Proof.
  induction s as [|c rest IH]; simpl; auto.
  destruct (is_whitespace c); simpl; lia.
Qed.

Lemma span_digits_length (s : str) :
  (List.length (snd (span_digits s)) <= List.length s)%nat.
Proof.
  induction s as [|c rest IH]; simpl; auto.
  destruct (is_digit c); simpl; auto.
  destruct (span_digits rest); simpl in *; lia.
Qed.

Lemma strip_prefix_length (p s rest : str) :
  strip_prefix p s = Some rest ->
  (List.length rest + List.length p = List.length s)%nat.
Proof.
  revert s; induction p as [|x p IH]; intros [|y s]; simpl; intros H;
    try discriminate; try (injection H as <-; simpl; lia).
  destruct (x =? y); try discriminate. apply IH in H. lia.
Qed.

Lemma expect_length (c : char) (s rest : str) :
  expect c s = Some rest -> List.length s = S (List.length rest).
Proof.
  destruct s as [|x s]; simpl; [discriminate|].
  destruct (x =? c); [|discriminate]. now intros [= ->].
Qed.

Lemma scanstring_length (n : nat) :
  forall (s acc t rest : str),
    (List.length s <= n)%nat ->
    scanstring acc s = Some (t, rest) ->
    (List.length rest < List.length s)%nat.
Proof.
  induction n as [|n IH]; intros s acc t rest Hn H.
  - destruct s; simpl in *; [discriminate | lia].
  - destruct s as [|c s]; [discriminate|].
    cbn [scanstring] in H. simpl in Hn.
    destruct (c =? QUOTE).
    { injection H as _ <-. simpl; lia. }
    destruct (c =? BACKSLASH).
    2:{ destruct (c <? 32); [discriminate|].
        apply IH in H; simpl; lia. }
    destruct s as [|e s]; [discriminate|].
    destruct (e =? 117).
    2:{ destruct (simple_escape e); [|discriminate].
        apply IH in H; simpl in *; lia. }
    destruct s as [|a [|b [|c1 [|d rest1]]]]; try discriminate.
    destruct (decode_hex4 a b c1 d) as [hi|]; [|discriminate].
    assert (Hplain : forall acc',
               scanstring acc' rest1 = Some (t, rest) ->
               (List.length rest < List.length (c :: e :: a :: b :: c1 :: d :: rest1))%nat).
    { intros acc' H'. apply IH in H'; simpl in *; lia. }
    destruct rest1 as [|bs [|e2 [|a2 [|b2 [|c2 [|d2 [|x rest2]]]]]]];
      try (eapply Hplain; eassumption).
    destruct (is_high_surrogate hi && (bs =? BACKSLASH) && (e2 =? 117));
      try (eapply Hplain; eassumption).
    destruct (decode_hex4 a2 b2 c2 d2) as [lo|]; [|discriminate].
    destruct (is_low_surrogate lo); try (eapply Hplain; eassumption).
    apply IH in H; simpl in *; lia.
Qed.

Lemma number_int_length (s ds rest : str) :
  number_int s = Some (ds, rest) -> (List.length rest < List.length s)%nat.
Proof.
  destruct s as [|c t]; simpl; [discriminate|].
  destruct ((49 <=? c) && (c <=? 57)).
  - pose proof (span_digits_length t) as L.
    destruct (span_digits t) as [ds' r]. simpl in L.
    intros [= _ <-]. lia.
  - destruct (c =? 48); [|discriminate]. intros [= _ <-]. lia.
Qed.

Lemma number_sign_length (s : str) :
  (List.length (snd (number_sign s)) <= List.length s)%nat.
Proof.
  destruct s as [|c t]; simpl; auto. destruct (c =? 45); simpl; lia.
Qed.

Lemma number_frac_length (s : str) :
  (List.length (snd (number_frac s)) <= List.length s)%nat.
Proof.
  destruct s as [|dot [|d t]]; simpl; auto.
  destruct ((dot =? 46) && is_digit d); simpl; auto.
  pose proof (span_digits_length t) as L.
  destruct (span_digits t); simpl in *; lia.
Qed.

Lemma number_exp_length (s : str) :
  (List.length (snd (number_exp s)) <= List.length s)%nat.
Proof.
  destruct s as [|e t]; simpl; auto.
  destruct ((e =? 101) || (e =? 69)); simpl; auto.
  assert (H : forall t' : str, (List.length t' <= List.length t)%nat ->
            forall esign : str,
            (List.length (snd (let '(ds, rest) := span_digits t' in
                          match ds with
                          | [] => ([], e :: t)
                          | _ :: _ => (e :: esign ++ ds, rest)
                          end)) <= S (List.length t))%nat).
  { intros t' Ht' esign. pose proof (span_digits_length t') as L.
    destruct (span_digits t') as [[|x ds] r]; simpl in *; lia. }
  destruct t as [|sg [|y t']]; try (apply H; simpl; lia).
  destruct ((sg =? 45) || (sg =? 43)); apply H; simpl; lia.
Qed.

Lemma match_number_length (s : str) (v : pyval) (rest : str) :
  match_number s = Parsed v rest -> (List.length rest < List.length s)%nat.
Proof.
  unfold match_number.
  pose proof (number_sign_length s) as L0.
  destruct (number_sign s) as [sign s0]; simpl in L0.
  destruct (number_int s0) as [[ds s1]|] eqn:E1; [|discriminate].
  apply number_int_length in E1.
  pose proof (number_frac_length s1) as L2.
  destruct (number_frac s1) as [frac s2]; simpl in L2.
  pose proof (number_exp_length s2) as L3.
  destruct (number_exp s2) as [expo s3]; simpl in L3.
  destruct frac, expo; intros [= _ <-]; lia.
Qed.

Lemma constant_length (lexeme : String.string) (v0 : pyval) (s : str)
  (v : pyval) (rest : str) :
  u lexeme <> [] ->
  constant lexeme v0 s = Parsed v rest ->
  (List.length rest < List.length s)%nat.
Proof.
  unfold constant. intros Hne.
  destruct (strip_prefix (u lexeme) s) eqn:E.
  - apply strip_prefix_length in E. intros [= _ <-].
    destruct (u lexeme); [contradiction | simpl in E; lia].
  - apply match_number_length.
Qed.

Lemma scan_consumes (fuel : nat) :
  (forall s v rest, scan_once fuel s = Parsed v rest ->
                    (List.length rest < List.length s)%nat)
  /\ (forall acc s v rest, parse_array fuel acc s = Parsed v rest ->
                           (List.length rest < List.length s)%nat)
  /\ (forall acc s v rest, parse_object fuel acc s = Parsed v rest ->
                           (List.length rest < List.length s)%nat).
Proof.
  induction fuel as [|fuel (IHs & IHa & IHo)].
  { repeat split; intros; discriminate. }
  repeat split.
  - intros s v rest H. cbn [scan_once] in H.
    destruct s as [|c s']; [discriminate|].
    destruct (c =? QUOTE).
    { destruct (scanstring [] s') as [[t r]|] eqn:E; [|discriminate].
      apply (scanstring_length _ _ _ _ _ (le_n _)) in E.
      injection H as _ <-. simpl; lia. }
    pose proof (skip_whitespace_length s') as Lw.
    destruct (c =? 123).
    { destruct (expect 125 (skip_whitespace s')) eqn:E.
      - apply expect_length in E. injection H as _ <-. simpl; lia.
      - apply IHo in H. simpl; lia. }
    destruct (c =? 91).
    { destruct (expect 93 (skip_whitespace s')) eqn:E.
      - apply expect_length in E. injection H as _ <-. simpl; lia.
      - apply IHa in H. simpl; lia. }
    repeat match type of H with
           | (if ?b then _ else _) = _ => destruct b
           end;
      first [ apply constant_length in H; [exact H | discriminate]
            | apply match_number_length in H; exact H ].
  - intros acc s v rest H. cbn [parse_array] in H.
    destruct (scan_once fuel s) as [v1 s1| |] eqn:E; try discriminate.
    apply IHs in E. pose proof (skip_whitespace_length s1) as Lw.
    destruct (expect 93 (skip_whitespace s1)) eqn:E1.
    { apply expect_length in E1. injection H as _ <-. lia. }
    destruct (expect 44 (skip_whitespace s1)) as [s2|] eqn:E2;
      [|discriminate].
    apply expect_length in E2. apply IHa in H.
    pose proof (skip_whitespace_length s2). lia.
  - intros acc s v rest H. cbn [parse_object] in H.
    destruct (expect QUOTE s) as [s0|] eqn:E0; [|discriminate].
    apply expect_length in E0.
    destruct (scanstring [] s0) as [[key s1]|] eqn:E1; [|discriminate].
    apply (scanstring_length _ _ _ _ _ (le_n _)) in E1.
    pose proof (skip_whitespace_length s1) as Lw1.
    destruct (expect 58 (skip_whitespace s1)) as [s2|] eqn:E2;
      [|discriminate].
    apply expect_length in E2.
    pose proof (skip_whitespace_length s2) as Lw2.
    destruct (scan_once fuel (skip_whitespace s2)) as [v3 s3| |] eqn:E3;
      try discriminate.
    apply IHs in E3. pose proof (skip_whitespace_length s3) as Lw3.
    destruct (expect 125 (skip_whitespace s3)) eqn:E4.
    { apply expect_length in E4. injection H as _ <-. lia. }
    destruct (expect 44 (skip_whitespace s3)) as [s4|] eqn:E5;
      [|discriminate].
    apply expect_length in E5. apply IHo in H.
    pose proof (skip_whitespace_length s4). lia.
Qed.

Lemma match_number_fuel (s : str) : match_number s <> OutOfFuel.
Proof.
  unfold match_number.
  destruct (number_sign s) as [sign s0].
  destruct (number_int s0) as [[ds s1]|]; [|discriminate].
  destruct (number_frac s1) as [frac s2].
  destruct (number_exp s2) as [expo s3].
  destruct frac, expo; discriminate.
Qed.

Lemma constant_fuel (lexeme : String.string) (v : pyval) (s : str) :
  constant lexeme v s <> OutOfFuel.
Proof.
  unfold constant. destruct (strip_prefix (u lexeme) s);
    [discriminate | apply match_number_fuel].
Qed.

Lemma scan_fuel_enough (fuel : nat) :
  (forall s, (2 * List.length s + 1 <= fuel)%nat ->
             scan_once fuel s <> OutOfFuel)
  /\ (forall acc s, (2 * List.length s + 2 <= fuel)%nat ->
                    parse_array fuel acc s <> OutOfFuel)
  /\ (forall acc s, (2 * List.length s + 2 <= fuel)%nat ->
                    parse_object fuel acc s <> OutOfFuel).
Proof.
  induction fuel as [|fuel (IHs & IHa & IHo)].
  { repeat split; intros; lia. }
  repeat split.
  - intros s Hf. cbn [scan_once].
    destruct s as [|c s']; [discriminate|]. simpl in Hf.
    destruct (c =? QUOTE).
    { destruct (scanstring [] s') as [[t r]|]; discriminate. }
    pose proof (skip_whitespace_length s') as Lw.
    destruct (c =? 123).
    { destruct (expect 125 (skip_whitespace s')); [discriminate|].
      apply IHo. lia. }
    destruct (c =? 91).
    { destruct (expect 93 (skip_whitespace s')); [discriminate|].
      apply IHa. lia. }
    repeat match goal with
           | |- (if ?b then _ else _) <> _ => destruct b
           end;
      first [ apply constant_fuel | apply match_number_fuel ].
  - intros acc s Hf. cbn [parse_array].
    destruct (scan_once fuel s) as [v1 s1| |] eqn:E.
    + apply (proj1 (scan_consumes fuel)) in E.
      pose proof (skip_whitespace_length s1) as Lw.
      destruct (expect 93 (skip_whitespace s1)); [discriminate|].
      destruct (expect 44 (skip_whitespace s1)) as [s2|] eqn:E2;
        [|discriminate].
      apply expect_length in E2.
      pose proof (skip_whitespace_length s2).
      apply IHa. lia.
    + discriminate.
    + exfalso. revert E. apply IHs. lia.
  - intros acc s Hf. cbn [parse_object].
    destruct (expect QUOTE s) as [s0|] eqn:E0; [|discriminate].
    apply expect_length in E0.
    destruct (scanstring [] s0) as [[key s1]|] eqn:E1; [|discriminate].
    apply (scanstring_length _ _ _ _ _ (le_n _)) in E1.
    pose proof (skip_whitespace_length s1) as Lw1.
    destruct (expect 58 (skip_whitespace s1)) as [s2|] eqn:E2;
      [|discriminate].
    apply expect_length in E2.
    pose proof (skip_whitespace_length s2) as Lw2.
    destruct (scan_once fuel (skip_whitespace s2)) as [v3 s3| |] eqn:E3.
    + apply (proj1 (scan_consumes fuel)) in E3.
      pose proof (skip_whitespace_length s3) as Lw3.
      destruct (expect 125 (skip_whitespace s3)); [discriminate|].
      destruct (expect 44 (skip_whitespace s3)) as [s4|] eqn:E5;
        [|discriminate].
      apply expect_length in E5.
      pose proof (skip_whitespace_length s4).
      apply IHo. lia.
    + discriminate.
    + exfalso. revert E3. apply IHs. lia.
Qed.

Lemma scan_fuel_mono (fuel : nat) :
  (forall s fuel', (fuel <= fuel')%nat -> scan_once fuel s <> OutOfFuel ->
                   scan_once fuel' s = scan_once fuel s)
  /\ (forall acc s fuel', (fuel <= fuel')%nat ->
                          parse_array fuel acc s <> OutOfFuel ->
                          parse_array fuel' acc s = parse_array fuel acc s)
  /\ (forall acc s fuel', (fuel <= fuel')%nat ->
                          parse_object fuel acc s <> OutOfFuel ->
                          parse_object fuel' acc s = parse_object fuel acc s).
Proof.
  induction fuel as [|fuel (IHs & IHa & IHo)].
  { repeat split; intros; simpl in *; congruence. }
  repeat split.
  - intros s [|fuel'] Hle; [lia|]. apply le_S_n in Hle.
    cbn [scan_once].
    destruct s as [|c s']; [reflexivity|].
    destruct (c =? QUOTE); [reflexivity|].
    destruct (c =? 123).
    { destruct (expect 125 (skip_whitespace s')); [reflexivity|].
      apply IHo; assumption. }
    destruct (c =? 91).
    { destruct (expect 93 (skip_whitespace s')); [reflexivity|].
      apply IHa; assumption. }
    reflexivity.
  - intros acc s [|fuel'] Hle; [lia|]. apply le_S_n in Hle.
    cbn [parse_array]. intros H.
    destruct (scan_once fuel s) as [v1 s1| |] eqn:E; try congruence.
    + rewrite (IHs s fuel' Hle), E by congruence.
      destruct (expect 93 (skip_whitespace s1)); [reflexivity|].
      destruct (expect 44 (skip_whitespace s1)); [|reflexivity].
      apply IHa; assumption.
    + rewrite (IHs s fuel' Hle), E by congruence. reflexivity.
  - intros acc s [|fuel'] Hle; [lia|]. apply le_S_n in Hle.
    cbn [parse_object]. intros H.
    destruct (expect QUOTE s) as [s0|]; [|reflexivity].
    destruct (scanstring [] s0) as [[key s1]|]; [|reflexivity].
    destruct (expect 58 (skip_whitespace s1)) as [s2|]; [|reflexivity].
    destruct (scan_once fuel (skip_whitespace s2)) as [v3 s3| |] eqn:E;
      try congruence.
    + rewrite (IHs _ fuel' Hle), E by congruence.
      destruct (expect 125 (skip_whitespace s3)); [reflexivity|].
      destruct (expect 44 (skip_whitespace s3)); [|reflexivity].
      apply IHo; assumption.
    + rewrite (IHs _ fuel' Hle), E by congruence. reflexivity.
Qed.

(** The fuel that [loads] supplies is enough: the scan does not run out of
    it, and more fuel does not change its result. *)
Lemma loads_fuel_enough (s : str) (fuel : nat) :
  (loads_fuel s <= fuel)%nat ->
  scan_once (loads_fuel s) (skip_whitespace s) <> OutOfFuel
  /\ scan_once fuel (skip_whitespace s)
     = scan_once (loads_fuel s) (skip_whitespace s).
Proof.
  intros Hle.
  assert (H : scan_once (loads_fuel s) (skip_whitespace s) <> OutOfFuel).
  { apply (proj1 (scan_fuel_enough _)). unfold loads_fuel.
    pose proof (skip_whitespace_length s). lia. }
  split; [exact H|].
  apply (proj1 (scan_fuel_mono _)); assumption.
Qed.

(** ** Identifier sequences *)

Lemma ids_upto_sorted (m : nat) : StronglySorted N.lt (ids_upto m).
Proof.
  unfold ids_upto. generalize 1%nat.
  induction m as [|m IH]; intros start; cbn [seq map]; constructor.
  - apply IH.
  - apply Forall_map, Forall_forall. intros j Hj.
    apply in_seq in Hj. lia.
Qed.

Lemma ids_upto_in (m : nat) (n : N) :
  In n (ids_upto m) <-> 1 <= n <= N.of_nat m.
Proof.
  unfold ids_upto. rewrite in_map_iff. split.
  - intros (j & <- & Hj). apply in_seq in Hj. lia.
  - intros H. exists (N.to_nat n). split; [lia|]. apply in_seq. lia.
Qed.

Lemma ids_upto_nodup (m : nat) : NoDup (ids_upto m).
Proof.
  unfold ids_upto. apply Injective_map_NoDup.
  - intros a b H. lia.
  - apply seq_NoDup.
Qed.

(* ================================================================== *)
(** * Further facts about text *)

(** ** Lines *)

Lemma splitlines_from_concat_bounded (n : nat) :
  forall (s cur : str),
    (List.length s <= n)%nat ->
    List.concat (splitlines_from cur s) = cur ++ filter not_linebreak s.
Proof.
  induction n as [|n IH]; intros s cur Hn.
  - destruct s; [|simpl in Hn; lia].
    destruct cur; cbn; [reflexivity | now rewrite app_nil_r].
  - destruct s as [|c rest].
    { destruct cur; cbn; [reflexivity | now rewrite app_nil_r]. }
    simpl in Hn. cbn [splitlines_from filter]. unfold not_linebreak at 1.
    destruct (is_linebreak c) eqn:Ec; cbn [negb].
    + cbn [List.concat]. f_equal.
      destruct rest as [|d rest']; [reflexivity|].
      destruct ((c =? 13) && (d =? 10)) eqn:Ecr.
      * apply andb_true_iff in Ecr as [_ Ed]. apply N.eqb_eq in Ed. subst d.
        rewrite IH by (simpl in Hn; lia). reflexivity.
      * rewrite IH by lia. reflexivity.
    + rewrite IH by lia. rewrite <- app_assoc. reflexivity.
Qed.

(** The lines of a text hold its characters other than line boundaries, in
    order. *)
Lemma splitlines_concat (s : str) :
  List.concat (splitlines s) = filter not_linebreak s.
Proof.
  unfold splitlines.
  now rewrite (splitlines_from_concat_bounded (List.length s)).
Qed.

Lemma splitlines_from_no_boundary_bounded (n : nat) :
  forall (s cur : str),
    (List.length s <= n)%nat ->
    forallb not_linebreak cur = true ->
    Forall (fun line => forallb not_linebreak line = true)
      (splitlines_from cur s).
Proof.
  induction n as [|n IH]; intros s cur Hn Hcur.
  - destruct s; [|simpl in Hn; lia]. destruct cur; cbn; auto.
  - destruct s as [|c rest].
    { destruct cur; cbn; auto. }
    simpl in Hn. cbn [splitlines_from].
    destruct (is_linebreak c) eqn:Ec.
    + constructor; [assumption|].
      destruct rest as [|d rest']; [constructor|].
      destruct ((c =? 13) && (d =? 10));
        apply IH; simpl in *; auto; lia.
    + apply IH; [lia|]. rewrite forallb_app, Hcur. cbn.
      unfold not_linebreak. now rewrite Ec.
Qed.

(** No line of a text holds a line boundary. *)
Lemma splitlines_no_boundary (s : str) :
  Forall (fun line => forallb not_linebreak line = true) (splitlines s).
Proof.
  apply (splitlines_from_no_boundary_bounded (List.length s)); auto.
Qed.

(** ** Numerals of a given width *)

Lemma digits_value_acc (s : str) (acc : N) :
  digits_value acc s = acc * 10 ^ N.of_nat (List.length s) + digits_value 0 s.
Proof.
  revert acc; induction s as [|c rest IH]; intros acc.
  - cbn. lia.
  - cbn [digits_value List.length]. rewrite IH, (IH (0 * 10 + (c - 48))).
    rewrite Nat2N.inj_succ, N.pow_succ_r'. lia.
Qed.

Lemma digits_value_app (a b : str) :
  digits_value 0 (a ++ b)
  = digits_value 0 a * 10 ^ N.of_nat (List.length b) + digits_value 0 b.
Proof.
  induction a as [|c a IH]; [cbn; lia|].
  change ((c :: a) ++ b) with (c :: (a ++ b)). cbn [digits_value].
  rewrite (digits_value_acc (a ++ b)), (digits_value_acc a), IH.
  rewrite length_app, Nat2N.inj_add, N.pow_add_r. lia.
Qed.

Lemma is_digit_range (c : char) : is_digit c = true <-> 48 <= c <= 57.
Proof.
  unfold is_digit. rewrite andb_true_iff, !N.leb_le. tauto.
Qed.

Lemma digits_value_bound (s : str) :
  forallb is_digit s = true ->
  digits_value 0 s < 10 ^ N.of_nat (List.length s).
Proof.
  induction s as [|c rest IH]; intros H; [cbn; lia|].
  cbn [forallb] in H. apply andb_true_iff in H as [Hc Hr].
  apply is_digit_range in Hc. specialize (IH Hr).
  cbn [digits_value List.length]. rewrite digits_value_acc.
  rewrite Nat2N.inj_succ, N.pow_succ_r'. nia.
Qed.

(** Two numerals of the same width and the same value are the same. *)
Lemma digits_value_inj (s t : str) :
  forallb is_digit s = true -> forallb is_digit t = true ->
  List.length s = List.length t ->
  digits_value 0 s = digits_value 0 t -> s = t.
Proof.
  revert t; induction s as [|c s IH]; intros [|d t] Hs Ht Hl Hv;
    try discriminate; [reflexivity|].
  cbn [forallb] in Hs, Ht.
  apply andb_true_iff in Hs as [Hc Hs], Ht as [Hd Ht].
  injection Hl as Hl.
  pose proof (digits_value_bound s Hs) as Bs.
  pose proof (digits_value_bound t Ht) as Bt.
  apply is_digit_range in Hc, Hd.
  cbn [digits_value] in Hv.
  rewrite (digits_value_acc s), (digits_value_acc t), <- Hl in Hv.
  rewrite <- Hl in Bt.
  assert (c - 48 = d - 48 /\ digits_value 0 s = digits_value 0 t)
    as [Hcd Hv'].
  { apply (N.div_mod_unique (10 ^ N.of_nat (List.length s))); auto; lia. }
  assert (c = d) as -> by lia.
  f_equal. apply IH; auto.
Qed.

(** A numeral does not start with a zero, the numeral of zero apart. *)
Lemma str_of_N_normal (n : N) :
  str_of_N n = [48]
  \/ exists c rest, str_of_N n = c :: rest /\ c <> 48
                    /\ forallb is_digit (c :: rest) = true.
Proof.
  pose proof (uint_codes_digits (N.to_uint n)) as Hd.
  unfold str_of_N in *.
  pose proof (DecimalN.Unsigned.to_of (N.to_uint n)) as H.
  rewrite DecimalN.Unsigned.of_to in H.
  unfold Decimal.unorm in H.
  pose proof (DecimalFacts.nzhead_nonzero (N.to_uint n)) as Hnz.
  destruct (Decimal.nzhead (N.to_uint n)) eqn:E;
    rewrite H in *; try (left; reflexivity);
    try (exfalso; eapply Hnz; reflexivity);
    right; eexists _, _; (split; [reflexivity|]); (split; [discriminate|]);
    exact Hd.
Qed.

Lemma str_of_N_length (n : N) (w : nat) :
  (0 < w)%nat -> n < 10 ^ N.of_nat w -> (List.length (str_of_N n) <= w)%nat.
Proof.
  intros Hw Hn.
  pose proof (digits_value_str_of_N n) as Hv.
  destruct (str_of_N_normal n) as [->|(c & rest & E & Hc & Hd)];
    [simpl; lia|].
  rewrite E in *. cbn [forallb] in Hd.
  apply andb_true_iff in Hd as [Hdc Hdr]. apply is_digit_range in Hdc.
  cbn [digits_value] in Hv. rewrite digits_value_acc in Hv.
  assert (1 * 10 ^ N.of_nat (List.length rest)
          <= (0 * 10 + (c - 48)) * 10 ^ N.of_nat (List.length rest))
    by (apply N.mul_le_mono_r; lia).
  assert (10 ^ N.of_nat (List.length rest) < 10 ^ N.of_nat w) as Hp.
  { revert Hv Hn H.
    generalize ((0 * 10 + (c - 48)) * 10 ^ N.of_nat (List.length rest)).
    generalize (10 ^ N.of_nat (List.length rest)).
    generalize (10 ^ N.of_nat w). generalize (digits_value 0 rest).
    intros v q p x Hv Hn H. lia. }
  apply N.pow_lt_mono_r_iff in Hp; [|lia]. simpl. lia.
Qed.

(** A number that fits in [w] digits is shown on exactly [w] digits. *)
Lemma fmt_0w_length (w : nat) (n : N) :
  (0 < w)%nat -> n < 10 ^ N.of_nat w -> List.length (fmt_0w w n) = w.
Proof.
  intros Hw Hn. pose proof (str_of_N_length n w Hw Hn) as Hl. clear Hn.
  unfold fmt_0w. cbn zeta. rewrite length_app, repeat_length.
  unfold str, char in *. lia.
Qed.

(** The digits of a number are those of its quotient by a power of ten
    followed by those of the remainder. *)
Lemma fmt_0w_split (j k : nat) (n : N) :
  (0 < j)%nat -> (0 < k)%nat -> n < 10 ^ N.of_nat (j + k) ->
  fmt_0w (j + k) n
  = fmt_0w j (n / 10 ^ N.of_nat k) ++ fmt_0w k (n mod 10 ^ N.of_nat k).
Proof.
  intros Hj Hk Hn.
  assert (P : 0 < 10 ^ N.of_nat k) by (apply N.neq_0_lt_0, N.pow_nonzero; lia).
  assert (Hq : n / 10 ^ N.of_nat k < 10 ^ N.of_nat j).
  { apply N.Div0.div_lt_upper_bound.
    rewrite <- N.pow_add_r, <- Nat2N.inj_add, Nat.add_comm. exact Hn. }
  assert (Hr : n mod 10 ^ N.of_nat k < 10 ^ N.of_nat k)
    by (apply N.mod_lt; lia).
  apply digits_value_inj.
  - apply fmt_0w_digits.
  - rewrite forallb_app, !fmt_0w_digits. reflexivity.
  - rewrite length_app, !fmt_0w_length; auto; lia.
  - rewrite digits_value_app, !digits_value_fmt_0w, fmt_0w_length by auto.
    rewrite (N.div_mod n (10 ^ N.of_nat k)) at 1 by lia. lia.
Qed.

(** ** Text that the console takes *)

Lemma encodable_app (a b : str) :
  encodable (a ++ b) = encodable a && encodable b.
Proof. apply forallb_app. Qed.

Lemma plain_app (a b : str) : plain (a ++ b) = plain a && plain b.
Proof. apply forallb_app. Qed.

Lemma printable_not_surrogate (c : char) :
  printable_ascii c = true -> is_surrogate c = false.
Proof.
  unfold printable_ascii, is_surrogate. intros H.
  apply andb_true_iff in H as [_ H]. apply N.leb_le in H.
  apply andb_false_iff. left. apply N.leb_gt. lia.
Qed.

Lemma printable_not_linebreak (c : char) :
  printable_ascii c = true -> is_linebreak c = false.
Proof.
  unfold printable_ascii, is_linebreak. intros H.
  apply andb_true_iff in H as [H1 H2].
  apply N.leb_le in H1. apply N.leb_le in H2.
  repeat (apply orb_false_iff; split); apply N.eqb_neq; lia.
Qed.

Lemma plain_encodable (s : str) : plain s = true -> encodable s = true.
Proof.
  unfold plain, encodable. rewrite !forallb_forall. intros H c Hc.
  now rewrite (printable_not_surrogate c (H c Hc)).
Qed.

Lemma plain_no_boundary (s : str) :
  plain s = true -> forallb not_linebreak s = true.
Proof.
  unfold plain, not_linebreak. rewrite !forallb_forall. intros H c Hc.
  now rewrite (printable_not_linebreak c (H c Hc)).
Qed.

Lemma digits_plain (s : str) : forallb is_digit s = true -> plain s = true.
Proof.
  unfold plain. rewrite !forallb_forall. intros H c Hc.
  specialize (H c Hc). apply is_digit_range in H.
  unfold printable_ascii. apply andb_true_iff. split; apply N.leb_le; lia.
Qed.

Lemma N_of_ascii_bounded (a : ascii) : N_of_ascii a < 256.
Proof.
  destruct a as [[|] [|] [|] [|] [|] [|] [|] [|]]; vm_compute; reflexivity.
Qed.

(** An ASCII literal holds no surrogate. *)
Lemma encodable_u (s : string) : encodable (u s) = true.
Proof.
  unfold encodable, u. apply forallb_forall. intros c Hc.
  apply in_map_iff in Hc as (a & <- & _).
  pose proof (N_of_ascii_bounded a) as B.
  unfold is_surrogate. apply negb_true_iff, andb_false_iff. left.
  apply N.leb_gt. lia.
Qed.

Lemma plain_str_of_N (n : N) : plain (str_of_N n) = true.
Proof. apply digits_plain, uint_codes_digits. Qed.

Lemma plain_str_of_Z (z : Z) : plain (str_of_Z z) = true.
Proof.
  destruct z; cbn [str_of_Z]; [reflexivity | apply plain_str_of_N|].
  rewrite plain_app, plain_str_of_N. reflexivity.
Qed.

Lemma plain_fmt_0w (w : nat) (n : N) : plain (fmt_0w w n) = true.
Proof. apply digits_plain, fmt_0w_digits. Qed.

Lemma plain_repeat (c : char) (n : nat) :
  printable_ascii c = true -> plain (repeat c n) = true.
Proof.
  intros H. induction n as [|n IH]; [reflexivity|].
  cbn [repeat plain forallb]. now rewrite H.
Qed.

Lemma encodable_repeat (c : char) (n : nat) :
  is_surrogate c = false -> encodable (repeat c n) = true.
Proof.
  intros H. induction n as [|n IH]; [reflexivity|].
  cbn [repeat encodable forallb]. now rewrite H.
Qed.

Lemma hex_digit_printable (n : N) :
  n < 16 -> printable_ascii (hex_digit n) = true.
Proof.
  intros H. unfold hex_digit, printable_ascii.
  destruct (N.ltb_spec n 10); apply andb_true_iff; split; apply N.leb_le; lia.
Qed.

Lemma plain_hex4 (n : N) : plain (hex4 n) = true.
Proof.
  unfold hex4, plain. cbn [forallb].
  rewrite !hex_digit_printable; [reflexivity|..];
    apply N.mod_upper_bound; discriminate.
Qed.

(** The lines of a text hold a surrogate exactly when the text does. *)
Lemma encodable_concat (lines : list str) :
  encodable (List.concat lines) = forallb encodable lines.
Proof.
  induction lines as [|l ls IH]; [reflexivity|].
  cbn [List.concat forallb]. now rewrite encodable_app, IH.
Qed.

Lemma encodable_without_boundaries (s : str) :
  encodable (filter not_linebreak s) = encodable s.
Proof.
  induction s as [|c rest IH]; [reflexivity|].
  cbn [filter]. unfold not_linebreak at 1.
  destruct (is_linebreak c) eqn:E; cbn [negb encodable forallb].
  - fold (encodable rest). fold (encodable (filter not_linebreak rest)).
    rewrite IH.
    assert (Hs : is_surrogate c = false); [|now rewrite Hs].
    unfold is_linebreak in E. unfold is_surrogate.
    apply andb_false_iff. left. apply N.leb_gt.
    repeat (apply orb_true_iff in E as [E|E]);
      apply N.eqb_eq in E; subst c; reflexivity.
  - fold (encodable rest). fold (encodable (filter not_linebreak rest)).
    now rewrite IH.
Qed.

Lemma encodable_splitlines (s : str) :
  forallb encodable (splitlines s) = encodable s.
Proof.
  now rewrite <- encodable_concat, splitlines_concat,
    encodable_without_boundaries.
Qed.

(** ** Lines put together and taken apart *)

Lemma join_cons (sep p q : str) (rest : list str) :
  join sep (p :: q :: rest) = p ++ sep ++ join sep (q :: rest).
Proof. reflexivity. Qed.

Lemma splitlines_from_line (line cur rest : str) :
  forallb not_linebreak line = true ->
  splitlines_from cur (line ++ rest) = splitlines_from (cur ++ line) rest.
Proof.
  revert cur; induction line as [|c line IH]; intros cur H.
  - now rewrite app_nil_r.
  - cbn [forallb] in H. apply andb_true_iff in H as [Hc H].
    unfold not_linebreak in Hc. apply negb_true_iff in Hc.
    rewrite <- app_comm_cons. cbn [splitlines_from]. rewrite Hc.
    rewrite IH by assumption. now rewrite <- app_assoc.
Qed.

(** Lines without line boundary, the last of them not empty, are the
    lines of their concatenation with a newline between them. *)
Lemma splitlines_join (lines : list str) :
  Forall (fun line => forallb not_linebreak line = true) lines ->
  last lines [SPACE] <> [] ->
  splitlines (join [NEWLINE] lines) = lines.
Proof.
  unfold splitlines.
  induction lines as [|l ls IH]; intros Hb Hl; [reflexivity|].
  inversion Hb as [|? ? Hl0 Hls]; subst.
  destruct ls as [|l' ls'].
  - cbn [join last] in *.
    rewrite <- (app_nil_r l) at 1. rewrite splitlines_from_line by assumption.
    cbn [app splitlines_from]. destruct l; [contradiction | reflexivity].
  - rewrite join_cons, splitlines_from_line by assumption.
    change (last (l :: l' :: ls') [SPACE]) with (last (l' :: ls') [SPACE])
      in Hl.
    specialize (IH Hls Hl).
    destruct (join [NEWLINE] (l' :: ls')) as [|d rest] eqn:Ej.
    { cbn [splitlines_from] in IH. discriminate. }
    change (splitlines_from ([] ++ l) ([NEWLINE] ++ d :: rest))
      with (l :: splitlines_from [] (d :: rest)).
    now rewrite IH.
Qed.

(* ================================================================== *)
(** * The batch endpoint *)

Module HttpFacts.
Import Http HttpSpec.

(** ** What the console takes *)

Lemma find_surrogate_none (s : str) (pos : N) :
  find_surrogate pos s = None <-> encodable s = true.
Proof.
  revert pos; induction s as [|c rest IH]; intros pos;
    cbn [find_surrogate encodable forallb]; [tauto|].
  destruct (is_surrogate c); cbn [negb andb].
  - split; discriminate.
  - apply IH.
Qed.

Lemma encode_error_none (line : str) :
  encode_error line = None <-> encodable line = true.
Proof. apply find_surrogate_none. Qed.

Lemma encodable_cons (c : char) (s : str) :
  encodable (c :: s) = negb (is_surrogate c) && encodable s.
Proof. reflexivity. Qed.

Lemma encodable_firstn (k : nat) (s : str) :
  encodable s = true -> encodable (firstn k s) = true.
Proof.
  revert k; induction s as [|c rest IH]; intros k H.
  - now destruct k.
  - destruct k as [|k]; [reflexivity|].
    rewrite encodable_cons in H. apply andb_true_iff in H as [Hc H].
    cbn [firstn]. rewrite encodable_cons, Hc. now apply IH.
Qed.

Lemma encodable_str_of_N (n : N) : encodable (str_of_N n) = true.
Proof. apply plain_encodable, plain_str_of_N. Qed.

Lemma encodable_fmt_0w (w : nat) (n : N) : encodable (fmt_0w w n) = true.
Proof. apply plain_encodable, plain_fmt_0w. Qed.

Lemma encodable_hex4 (n : N) : encodable (hex4 n) = true.
Proof. apply plain_encodable, plain_hex4. Qed.

Ltac encodable_parts :=
  repeat first [rewrite encodable_cons | rewrite encodable_app];
  rewrite ?encodable_u, ?encodable_str_of_N, ?encodable_fmt_0w,
    ?encodable_hex4;
  reflexivity.

(** The text of an exception holds no surrogate: the codec names the
    character it refused by its escape. *)
Lemma encodable_exn_str (e : exn) : encodable (exn_str e) = true.
Proof.
  destruct e as [|t|t| |c start stop]; cbn [exn_str];
    try destruct (stop =? start + 1); encodable_parts.
Qed.

Lemma encodable_batch_header (n : N) : encodable (batch_header n) = true.
Proof. unfold batch_header. encodable_parts. Qed.

Section Facts.
Context {rt : Runtime}.

Lemma encodable_source_line (req : request) :
  encodable (source_line req) = true.
Proof. unfold source_line. encodable_parts. Qed.

Lemma encodable_volume_line (volume : N) :
  encodable (volume_line volume) = true.
Proof. unfold volume_line. encodable_parts. Qed.

Lemma encodable_received_line (req : request) :
  encodable (received_line req) = true.
Proof.
  unfold received_line, get_timestamp.
  repeat first [rewrite encodable_cons | rewrite encodable_app].
  rewrite encodable_firstn by apply encodable_u. reflexivity.
Qed.

Lemma encodable_error_line (e : exn) : encodable (error_line e) = true.
Proof.
  unfold error_line.
  repeat first [rewrite encodable_cons | rewrite encodable_app].
  rewrite encodable_exn_str. reflexivity.
Qed.

Lemma emit_nil (w : world) : emit [] w = w.
Proof. destruct w; unfold emit; simpl. now rewrite app_nil_r. Qed.

Lemma emit_emit (a b : list str) (w : world) :
  emit b (emit a w) = emit (a ++ b) w.
Proof. unfold emit; simpl. now rewrite app_assoc. Qed.

Lemma print_cases (line : str) (w : world) :
  print line w = match encode_error line with
                 | Some e => (Raise e, w)
                 | None => (Ok tt, emit [line] w)
                 end.
Proof. reflexivity. Qed.

(** A text without surrogate is written. *)
Lemma print_emit (line : str) (w : world) :
  encodable line = true -> print line w = (Ok tt, emit [line] w).
Proof.
  intros H. unfold print.
  now rewrite (proj2 (encode_error_none line) H).
Qed.

Lemma for_each_print (f : str -> str) (lines : list str) (w : world) :
  for_each (fun line => print (f line)) lines w
  = (outcome (snd (print_lines (map f lines))),
     emit (fst (print_lines (map f lines))) w).
Proof.
  revert w; induction lines as [|l ls IH]; intros w;
    cbn [for_each map print_lines].
  - cbn. now rewrite emit_nil.
  - unfold bind. rewrite print_cases.
    destruct (encode_error (f l)) as [e|]; cbn [fst snd outcome].
    + now rewrite emit_nil.
    + rewrite IH. destruct (print_lines (map f ls)) as [out stop].
      cbn [fst snd]. now rewrite emit_emit.
Qed.

Lemma print_entry_spec (i : N) (e : pyval) (w : world) :
  print_entry i e w
  = (outcome (snd (entry_output i e)), emit (fst (entry_output i e)) w).
Proof.
  unfold print_entry, entry_output, entry_lines, bind.
  destruct (splitlines (entry_content e)) as [|l0 ls];
    cbn [first_line ret raise tl fst snd outcome print_lines].
  { now rewrite emit_nil. }
  rewrite print_cases.
  destruct (encode_error (entry_prefix i ++ l0)) as [err|];
    cbn [fst snd outcome].
  { now rewrite emit_nil. }
  rewrite for_each_print.
  change (@map str (list char)) with (@map str str).
  destruct (print_lines (map _ ls)) as [out stop].
  cbn [fst snd]. now rewrite emit_emit.
Qed.

Lemma loop_spec (entries : list pyval) (i : N) (w : world) :
  for_enumerate print_entry i entries w
  = (outcome (snd (loop_output i entries)),
     emit (fst (loop_output i entries)) w).
Proof.
  revert i w; induction entries as [|e rest IH]; intros i w;
    cbn [for_enumerate loop_output].
  - cbn [fst snd outcome]. now rewrite emit_nil.
  - unfold bind. rewrite print_entry_spec.
    destruct (entry_output i e) as [out [err|]]; cbn [fst snd outcome].
    + reflexivity.
    + rewrite IH. destruct (loop_output (i + 1) rest) as [more stop];
        cbn [fst snd].
      rewrite emit_emit. reflexivity.
Qed.

Lemma py_len_sized (v : pyval) (w : world) :
  py_len v w = match sized v with
               | inl e => (Raise e, w)
               | inr (n, _) => (Ok n, w)
               end.
Proof. destruct v; reflexivity. Qed.

Lemma py_iter_sized (v : pyval) (n : N) (entries : list pyval) (w : world) :
  sized v = inr (n, entries) -> py_iter v w = (Ok entries, w).
Proof. destruct v; simpl; intros [= <- <-] || discriminate; reflexivity. Qed.

(** The first two statements of the [try] block. *)
Lemma begin_batch_spec (req : request) (w : world) :
  begin_batch req w
  = match loads (body req) with
    | None => (Raise BadRequest, w)
    | Some batch =>
        (Ok batch, {| batch_count := batch_count w + 1; stdout := stdout w |})
    end.
Proof.
  unfold begin_batch, get_json, bind.
  destruct (loads (body req)); reflexivity.
Qed.

(** The rest of the [try] block, under the value that the counter has when
    it runs. *)
Lemma render_batch_spec (req : request) (batch : pyval) (w : world) :
  render_batch req batch w
  = (snd (block req batch (batch_count w)),
     emit (fst (block req batch (batch_count w))) w).
Proof.
  unfold render_batch, block, bind. cbn [get_batch_count].
  rewrite print_emit by apply encodable_batch_header.
  rewrite print_emit by apply encodable_source_line.
  rewrite py_len_sized. cbn [emit batch_count stdout].
  destruct (sized batch) as [e|[volume entries]] eqn:Es.
  { cbn [fst snd]. unfold emit. cbn [batch_count stdout].
    now rewrite <- app_assoc. }
  rewrite print_emit by apply encodable_volume_line.
  rewrite print_emit by apply encodable_received_line.
  rewrite print_emit by reflexivity.
  rewrite (py_iter_sized _ _ _ _ Es), loop_spec.
  cbn zeta.
  destruct (loop_output 0 entries) as [out [err|]]; cbn [fst snd outcome].
  - unfold emit. cbn [batch_count stdout]. now rewrite <- !app_assoc.
  - rewrite print_emit by reflexivity. rewrite py_len_sized, Es.
    unfold ret, emit. cbn [batch_count stdout]. now rewrite <- !app_assoc.
Qed.

(** The [try] block, when nothing else runs meanwhile. *)
Lemma process_batch_cases (req : request) (w : world) :
  process_batch req w
  = match loads (body req) with
    | None => (Raise BadRequest, w)
    | Some batch =>
        let n := batch_count w + 1 in
        let w1 := {| batch_count := n; stdout := stdout w |} in
        (snd (block req batch n), emit (fst (block req batch n)) w1)
    end.
Proof.
  unfold process_batch, bind. rewrite begin_batch_spec.
  destruct (loads (body req)) as [batch|]; [|reflexivity].
  rewrite render_batch_spec. reflexivity.
Qed.

(** The [except] clause: its line is always written. *)
Lemma on_error_spec (e : exn) (w : world) :
  on_error e w = (Ok (failure e), emit [error_line e] w).
Proof.
  unfold on_error, bind.
  rewrite (print_emit (error_line e)) by apply encodable_error_line.
  reflexivity.
Qed.

(** [receive_logs] always returns a response, the one of [expected]. *)
Theorem receive_logs_expected (req : request) (w : world) :
  receive_logs req w = (Ok (fst (expected req w)), snd (expected req w)).
Proof.
  unfold receive_logs, try_except. rewrite process_batch_cases.
  unfold expected.
  destruct (loads (body req)) as [batch|]; [|apply on_error_spec].
  cbn zeta.
  destruct (block req batch (batch_count w + 1)) as [out [resp|e]];
    cbn [fst snd answered].
  - now rewrite app_nil_r.
  - rewrite on_error_spec, emit_emit. reflexivity.
Qed.

(** A thread that was suspended after it advanced the counter goes on
    under the value that the counter has by then. *)
Lemma resume_batch_spec (req : request) (batch : pyval) (w : world) :
  resume_batch req (Ok batch) w
  = (Ok (fst (answered (snd (block req batch (batch_count w))))),
     emit (fst (block req batch (batch_count w))
           ++ snd (answered (snd (block req batch (batch_count w))))) w).
Proof.
  unfold resume_batch, try_except. rewrite render_batch_spec.
  destruct (block req batch (batch_count w)) as [out [resp|e]];
    cbn [fst snd answered].
  - now rewrite app_nil_r.
  - rewrite on_error_spec, emit_emit. reflexivity.
Qed.

(** Handling a request is the two parts of the [try] block one after the
    other. *)
Lemma receive_logs_in_two_parts (req : request) (w : world) :
  receive_logs req w
  = resume_batch req (fst (begin_batch req w)) (snd (begin_batch req w)).
Proof.
  unfold receive_logs, process_batch, resume_batch, try_except, bind.
  destruct (begin_batch req w) as [[batch|e] w']; reflexivity.
Qed.

(** What a request writes does not depend on what the console held, and
    its answer depends on the state through the counter only. *)
Lemma expected_appends (req : request) (w : world) :
  exists out,
    stdout (snd (expected req w)) = stdout w ++ out
    /\ forall w2, batch_count w2 = batch_count w ->
         fst (expected req w2) = fst (expected req w)
         /\ batch_count (snd (expected req w2))
            = batch_count (snd (expected req w))
         /\ stdout (snd (expected req w2)) = stdout w2 ++ out.
Proof.
  unfold expected.
  destruct (loads (body req)) as [batch|].
  2:{ eexists; split; [reflexivity|]. intros w2 E. simpl. now rewrite E. }
  cbn zeta.
  destruct (block req batch (batch_count w + 1)) as [out r] eqn:Eb.
  eexists; split; [reflexivity|]. intros w2 ->. rewrite Eb. simpl. auto.
Qed.

Lemma skipn_app_exact {A} (a b : list A) : skipn (List.length a) (a ++ b) = b.
Proof. induction a; simpl; auto. Qed.

Lemma printed_by_spec (req : request) (w : world) :
  stdout (snd (expected req w)) = stdout w ++ printed_by req w.
Proof.
  unfold printed_by, printed_since. rewrite receive_logs_expected. cbn [snd].
  destruct (expected_appends req w) as (out & -> & _).
  now rewrite skipn_app_exact.
Qed.

(** The lines that one request writes. *)
Lemma printed_by_block (req : request) (w : world) :
  printed_by req w
  = match loads (body req) with
    | None => [error_line BadRequest]
    | Some batch =>
        fst (block req batch (batch_count w + 1))
        ++ snd (answered (snd (block req batch (batch_count w + 1))))
    end.
Proof.
  apply (app_inv_head (stdout w)). rewrite <- printed_by_spec.
  unfold expected.
  destruct (loads (body req)) as [batch|]; [|reflexivity].
  cbn zeta. now destruct (block req batch (batch_count w + 1)).
Qed.

Lemma printed_by_cases (req : request) (w : world) :
  printed_by req w
  = match loads (body req) with
    | None => [error_line BadRequest]
    | Some batch =>
        let n := batch_count w + 1 in
        match sized batch with
        | inl e => [batch_header n; source_line req; error_line e]
        | inr (volume, entries) =>
            [batch_header n; source_line req; volume_line volume;
             received_line req; separator]
            ++ fst (loop_output 0 entries)
            ++ [match snd (loop_output 0 entries) with
                | None => separator
                | Some e => error_line e
                end]
        end
    end.
Proof.
  rewrite printed_by_block.
  destruct (loads (body req)) as [batch|]; [|reflexivity].
  cbn zeta. unfold block.
  destruct (sized batch) as [e|[volume entries]]; [reflexivity|].
  cbn zeta.
  destruct (snd (loop_output 0 entries)); cbn [fst snd answered];
    now rewrite <- ?app_assoc, ?app_nil_r.
Qed.

(** ** How the block starts and ends *)

Lemma block_header_first (req : request) (batch : pyval) (n : N) :
  exists printed, fst (block req batch n) = batch_header n :: printed.
Proof.
  unfold block. destruct (sized batch) as [e|[volume entries]].
  - eexists. reflexivity.
  - cbn zeta. destruct (snd (loop_output 0 entries));
      eexists; reflexivity.
Qed.

Lemma block_complete (req : request) (batch : pyval) (n : N)
  (resp : response) :
  snd (block req batch n) = Ok resp ->
  exists volume printed,
    resp = success volume
    /\ fst (block req batch n) = printed ++ [separator].
Proof.
  unfold block. destruct (sized batch) as [e|[volume entries]];
    [discriminate|].
  cbn zeta. destruct (snd (loop_output 0 entries)); [discriminate|].
  cbn [fst snd]. intros [= <-]. eexists _, _. split; reflexivity.
Qed.

(** ** Identifiers in block headers *)

Lemma header_id_other (c : char) (s : str) :
  c <> NEWLINE -> header_id (c :: s) = None.
Proof.
  intros H. unfold header_id. cbn [strip_prefix app].
  destruct (N.eqb_spec NEWLINE c); [congruence | reflexivity].
Qed.

Lemma header_id_batch_header (n : N) : header_id (batch_header n) = Some n.
Proof.
  unfold header_id, batch_header.
  pose proof (fmt_0w_digits 4 n) as Hd.
  pose proof (digits_value_fmt_0w 4 n) as Hv.
  revert Hd Hv. generalize (fmt_0w 4 n). intros d Hd Hv.
  cbn -[span_digits digits_value rule].
  rewrite span_digits_app;
    [cbn [fst]; now rewrite Hv | assumption | reflexivity].
Qed.

Lemma header_ids_app (a b : list str) :
  header_ids (a ++ b) = header_ids a ++ header_ids b.
Proof. apply flat_map_app. Qed.

Lemma header_ids_plain (lines : list str) :
  Forall (fun line => header_id line = None) lines -> header_ids lines = [].
Proof.
  induction 1 as [|l ls Hl _ IH]; simpl; auto. now rewrite Hl, IH.
Qed.

Lemma entry_lines_plain (i : N) (e : pyval) :
  Forall (fun line => header_id line = None) (entry_lines i e).
Proof.
  unfold entry_lines.
  destruct (splitlines (entry_content e)) as [|l0 ls]; constructor.
  - apply header_id_other. discriminate.
  - apply Forall_map, Forall_forall. intros l _.
    apply header_id_other. discriminate.
Qed.

(** What is printed of some lines is a part of them. *)
Lemma print_lines_part (P : str -> Prop) (lines : list str) :
  Forall P lines -> Forall P (fst (print_lines lines)).
Proof.
  induction 1 as [|l ls Hl _ IH]; cbn [print_lines]; [constructor|].
  destruct (encode_error l); [constructor|].
  destruct (print_lines ls) as [out stop]. cbn [fst] in *.
  now constructor.
Qed.

Lemma entry_output_plain (i : N) (e : pyval) :
  Forall (fun line => header_id line = None) (fst (entry_output i e)).
Proof.
  unfold entry_output.
  destruct (splitlines (entry_content e)) eqn:E; [constructor|].
  apply print_lines_part, entry_lines_plain.
Qed.

Lemma loop_output_plain (entries : list pyval) (i : N) :
  header_ids (fst (loop_output i entries)) = [].
Proof.
  revert i; induction entries as [|e rest IH]; intros i;
    cbn [loop_output]; [reflexivity|].
  pose proof (entry_output_plain i e) as Hp.
  destruct (entry_output i e) as [out [err|]]; cbn [fst] in *.
  - now apply header_ids_plain.
  - specialize (IH (i + 1)).
    destruct (loop_output (i + 1) rest) as [more stop]; cbn [fst] in *.
    rewrite header_ids_app, IH, app_nil_r.
    now apply header_ids_plain.
Qed.

(** The lines written after the counter was advanced show one identifier,
    the value that the counter has when the header is printed. *)
Lemma header_ids_block (req : request) (batch : pyval) (n : N) :
  header_ids (fst (block req batch n)
              ++ snd (answered (snd (block req batch n))))
  = [n].
Proof.
  unfold block. destruct (sized batch) as [e|[volume entries]].
  - cbn [fst snd answered]. rewrite header_ids_app.
    cbn [header_ids flat_map]. now rewrite header_id_batch_header.
  - cbn zeta.
    destruct (snd (loop_output 0 entries)); cbn [fst snd answered];
      rewrite !header_ids_app, loop_output_plain;
      cbn [header_ids flat_map]; now rewrite header_id_batch_header.
Qed.

(** A request whose body parses writes one block header, carrying the
    counter it has just advanced; any other request writes none. *)
Lemma header_ids_printed (req : request) (w : world) :
  header_ids (printed_by req w)
  = if parsed req then [batch_count w + 1] else [].
Proof.
  rewrite printed_by_block. unfold parsed.
  destruct (loads (body req)) as [batch|]; [|reflexivity].
  apply header_ids_block.
Qed.

Lemma batch_count_after (req : request) (w : world) :
  batch_count (snd (expected req w))
  = if parsed req then batch_count w + 1 else batch_count w.
Proof.
  unfold expected, parsed.
  destruct (loads (body req)) as [batch|]; [|reflexivity].
  cbn zeta. now destruct (block req batch (batch_count w + 1)).
Qed.

Lemma serve_cons (req : request) (rest : list request) (w : world) :
  serve (req :: rest) w
  = (fst (expected req w) :: fst (serve rest (snd (expected req w))),
     snd (serve rest (snd (expected req w)))).
Proof.
  cbn [serve]. rewrite receive_logs_expected.
  destruct (serve rest (snd (expected req w))); reflexivity.
Qed.

(** Every request is answered. *)
Lemma serve_answers_all (reqs : list request) (w : world) :
  List.length (fst (serve reqs w)) = List.length reqs.
Proof.
  revert w; induction reqs as [|req rest IH]; intros w; [reflexivity|].
  rewrite serve_cons. cbn [fst List.length]. now rewrite IH.
Qed.

Lemma serve_ids (reqs : list request) (w : world) :
  let k := List.length (filter parsed reqs) in
  batch_count (snd (serve reqs w)) = batch_count w + N.of_nat k
  /\ exists out,
       stdout (snd (serve reqs w)) = stdout w ++ out
       /\ header_ids out
          = map (fun j => batch_count w + N.of_nat j) (seq 1 k).
Proof.
  revert w; induction reqs as [|req rest IH]; intros w.
  - cbn. split; [lia|]. exists []. now rewrite app_nil_r.
  - rewrite serve_cons. cbn [snd filter].
    destruct (IH (snd (expected req w))) as (Hc & out & Ho & Hi).
    pose proof (header_ids_printed req w) as Hp.
    pose proof (batch_count_after req w) as Hb.
    rewrite Hb in Hc, Hi.
    rewrite Hc, Ho, printed_by_spec, <- app_assoc.
    destruct (parsed req); cbn [List.length].
    + split; [lia|]. eexists; split; [reflexivity|].
      rewrite header_ids_app, Hp, Hi. cbn [seq map].
      rewrite <- (seq_shift _ 1), map_map. simpl app.
      apply (f_equal2 (@cons N)); [lia|]. apply map_ext. intros j. lia.
    + split; [lia|]. eexists; split; [reflexivity|].
      rewrite header_ids_app, Hp, Hi. reflexivity.
Qed.

(** ** Two requests at the same time *)

(** When both threads have advanced the counter before either prints its
    header, both blocks are written under the same value. *)
Lemma overlapped_cases
  (req1 req2 : request) (w : world) (batch1 batch2 : pyval) :
  loads (body req1) = Some batch1 ->
  loads (body req2) = Some batch2 ->
  let n := batch_count w + 2 in
  let r1 := block req1 batch1 n in
  let r2 := block req2 batch2 n in
  overlapped req1 req2 w
  = (Ok (fst (answered (snd r1))), Ok (fst (answered (snd r2))),
     {| batch_count := n;
        stdout := stdout w
                  ++ (fst r1 ++ snd (answered (snd r1)))
                  ++ (fst r2 ++ snd (answered (snd r2))) |}).
Proof.
  intros H1 H2. cbn zeta. unfold overlapped.
  rewrite begin_batch_spec, H1, begin_batch_spec, H2.
  cbn [batch_count stdout].
  rewrite resume_batch_spec. cbn [batch_count].
  rewrite resume_batch_spec. cbn [emit batch_count stdout].
  replace (batch_count w + 1 + 1) with (batch_count w + 2) by lia.
  rewrite emit_emit. reflexivity.
Qed.

Lemma overlapped_ids (req1 req2 : request) (w : world) :
  parsed req1 = true -> parsed req2 = true ->
  header_ids (printed_since w (snd (overlapped req1 req2 w)))
  = [batch_count w + 2; batch_count w + 2].
Proof.
  unfold parsed. intros H1 H2.
  destruct (loads (body req1)) as [batch1|] eqn:E1; [|discriminate].
  destruct (loads (body req2)) as [batch2|] eqn:E2; [|discriminate].
  rewrite (overlapped_cases req1 req2 w batch1 batch2 E1 E2).
  unfold printed_since. cbn [snd stdout].
  rewrite skipn_app_exact, header_ids_app, !header_ids_block.
  reflexivity.
Qed.

(** ** Which entries have a text *)

Lemma str_of_N_nonempty (n : N) : str_of_N n <> [].
Proof.
  unfold str_of_N. destruct n as [|p]; [discriminate|].
  cbn [N.to_uint].
  pose proof (DecimalPos.Unsigned.to_uint_nonnil p) as H.
  destruct (Pos.to_uint p); [contradiction | ..]; discriminate.
Qed.

Lemma str_of_Z_nonempty (z : Z) : str_of_Z z <> [].
Proof.
  destruct z; cbn [str_of_Z]; try discriminate. apply str_of_N_nonempty.
Qed.

Lemma py_repr_nonempty (v : pyval) : py_repr v <> [].
Proof.
  destruct v as [|[|]| | | | |]; cbn [py_repr]; try discriminate.
  apply str_of_Z_nonempty.
Qed.

Lemma dumps_dict_nonempty (items : list (str * pyval)) :
  dumps_indent2 (PyDict items) <> [].
Proof. destruct items; discriminate. Qed.

(** The empty text is the only entry without text. *)
Lemma entry_content_empty (e : pyval) :
  entry_content e = [] <-> e = PyStr [].
Proof.
  split; [|intros ->; reflexivity].
  destruct e; cbn [entry_content py_str]; intros H;
    try (exfalso; revert H; apply py_repr_nonempty).
  - now subst.
  - exfalso; revert H; apply dumps_dict_nonempty.
Qed.

(** ** Which entries are printed *)

Lemma print_lines_all (lines : list str) :
  forallb encodable lines = true -> print_lines lines = (lines, None).
Proof.
  induction lines as [|l ls IH]; cbn [forallb print_lines]; [reflexivity|].
  intros H. apply andb_true_iff in H as [Hl H].
  rewrite (proj2 (encode_error_none l) Hl), IH by assumption. reflexivity.
Qed.

Lemma print_lines_stop (lines : list str) :
  snd (print_lines lines) = None <-> forallb encodable lines = true.
Proof.
  induction lines as [|l ls IH]; cbn [forallb print_lines]; [tauto|].
  destruct (encode_error l) as [e|] eqn:E.
  - cbn [snd]. split; [discriminate|]. intros H.
    apply andb_true_iff in H as [H _].
    apply encode_error_none in H. congruence.
  - apply encode_error_none in E. rewrite E. cbn [andb].
    destruct (print_lines ls) as [out stop]. exact IH.
Qed.

(** The lines of an entry hold a surrogate exactly when its text does. *)
Lemma entry_lines_encodable (i : N) (e : pyval) :
  forallb encodable (entry_lines i e) = encodable (entry_content e).
Proof.
  rewrite <- encodable_splitlines. unfold entry_lines.
  destruct (splitlines (entry_content e)) as [|l0 ls]; [reflexivity|].
  cbn [forallb]. unfold entry_prefix.
  rewrite !encodable_app, encodable_fmt_0w. cbn [andb].
  change (encodable BLUE) with true. change (encodable RESET) with true.
  change (encodable (u " ")) with true. cbn [andb]. f_equal.
  induction ls as [|l ls IH]; [reflexivity|].
  cbn [map forallb]. rewrite encodable_app, IH. reflexivity.
Qed.

(** An entry is printed in full exactly when it has a text and this text
    holds no surrogate. *)
Lemma entry_output_cases (i : N) (e : pyval) :
  (e <> PyStr [] /\ encodable (entry_content e) = true
   /\ entry_output i e = (entry_lines i e, None))
  \/ ((e = PyStr [] \/ encodable (entry_content e) = false)
      /\ exists out err, entry_output i e = (out, Some err)).
Proof.
  unfold entry_output.
  pose proof (entry_lines_encodable i e) as He.
  destruct (splitlines (entry_content e)) as [|l0 ls] eqn:E.
  { right. apply splitlines_nil, entry_content_empty in E.
    split; [now left|]. eexists _, _. reflexivity. }
  assert (Hne : e <> PyStr []).
  { intros ->. cbn in E. discriminate. }
  destruct (encodable (entry_content e)) eqn:Ec.
  - left. split; [exact Hne|]. split; [reflexivity|].
    now apply print_lines_all.
  - right. split; [now right|].
    destruct (print_lines (entry_lines i e)) as [out [err|]] eqn:Ep.
    + eexists _, _. reflexivity.
    + exfalso.
      assert (H : snd (print_lines (entry_lines i e)) = None)
        by now rewrite Ep.
      apply print_lines_stop in H. congruence.
Qed.

Lemma loop_output_finishes (entries : list pyval) (i : N) :
  snd (loop_output i entries) = None
  <-> Forall (fun e => e <> PyStr [] /\ encodable (entry_content e) = true)
        entries.
Proof.
  revert i; induction entries as [|e rest IH]; intros i; cbn [loop_output].
  - split; auto.
  - destruct (entry_output_cases i e)
      as [(Hne & Hc & ->)|([He|He] & out & err & ->)].
    + specialize (IH (i + 1)).
      destruct (loop_output (i + 1) rest) as [more stop]; cbn [snd] in *.
      rewrite IH. split.
      * intros H. now constructor.
      * intros H. now inversion H.
    + cbn [snd]. split; [discriminate|]. intros H.
      inversion H as [|? ? [Hx _] _]; subst. contradiction.
    + cbn [snd]. split; [discriminate|]. intros H.
      inversion H as [|? ? [_ Hx] _]; subst. congruence.
Qed.

(** A batch whose entries all have a text that the console takes is
    rendered entry by entry, in order, each under its index. *)
Lemma loop_output_in_order (entries : list pyval) (k : nat) :
  Forall (fun e => e <> PyStr [] /\ encodable (entry_content e) = true)
    entries ->
  fst (loop_output (N.of_nat k) entries)
  = flat_map (fun ke => entry_lines (N.of_nat (fst ke)) (snd ke))
      (combine (seq k (List.length entries)) entries).
Proof.
  revert k; induction entries as [|e rest IH]; intros k H; [reflexivity|].
  inversion H as [|? ? [He Hc] Hrest]; subst.
  cbn [loop_output List.length seq combine flat_map fst snd].
  destruct (entry_output_cases (N.of_nat k) e)
    as [(_ & _ & ->)|([Hx|Hx] & _)]; [|contradiction|congruence].
  specialize (IH (S k) Hrest).
  replace (N.of_nat (S k)) with (N.of_nat k + 1) in IH by lia.
  destruct (loop_output (N.of_nat k + 1) rest) as [more stop];
    cbn [fst] in *.
  now rewrite IH.
Qed.

(** A JSON array whose entries all have a text that the console takes is
    accepted: status 200 and the number of its entries. *)
Lemma batch_accepted (req : request) (w : world) (entries : list pyval) :
  loads (body req) = Some (PyList entries) ->
  Forall (fun e => e <> PyStr [] /\ encodable (entry_content e) = true)
    entries ->
  fst (receive_logs req w) = Ok (success (N.of_nat (List.length entries)))
  /\ printed_by req w
     = [batch_header (batch_count w + 1); source_line req;
        volume_line (N.of_nat (List.length entries)); received_line req;
        separator]
       ++ flat_map (fun ke => entry_lines (N.of_nat (fst ke)) (snd ke))
            (combine (seq 0 (List.length entries)) entries)
       ++ [separator].
Proof.
  intros Hl Hne.
  rewrite receive_logs_expected, printed_by_cases. unfold expected, block.
  rewrite Hl. cbn [sized]. cbn zeta.
  rewrite (proj2 (loop_output_finishes entries 0) Hne).
  split; [reflexivity|].
  change (loop_output 0 entries) with (loop_output (N.of_nat 0) entries).
  now rewrite (loop_output_in_order entries 0 Hne).
Qed.

(** A JSON array that starts with the empty text is answered with status
    400. *)
Lemma batch_rejected (req : request) (w : world) (rest : list pyval) :
  loads (body req) = Some (PyList (PyStr [] :: rest)) ->
  fst (receive_logs req w) = Ok (failure IndexOutOfRange).
Proof.
  intros Hl.
  rewrite receive_logs_expected. unfold expected, block.
  rewrite Hl. reflexivity.
Qed.

(** ** The claims about the batch endpoint *)

(** C1 (amended): a body that is not valid JSON is answered with status 400
    and the error payload, and the batch counter keeps its value; a body
    that parses as JSON, whether an array or not, advances the counter by
    one. *)
Theorem counter_advances_on_parsed_json (req : request) (w : world) :
  exists resp w',
    receive_logs req w = (Ok resp, w')
    /\ (loads (body req) = None ->
        status resp = 400
        /\ payload resp = PyDict [(u "status", PyStr (u "error"));
                                  (u "message", PyStr (exn_str BadRequest))]
        /\ batch_count w' = batch_count w)
    /\ (forall v, loads (body req) = Some v ->
                  batch_count w' = batch_count w + 1).
Proof.
  exists (fst (expected req w)), (snd (expected req w)).
  split; [apply receive_logs_expected|].
  pose proof (batch_count_after req w) as Hb. unfold parsed in Hb.
  unfold expected in *.
  destruct (loads (body req)) as [batch|]; split;
    try discriminate; try (intros _; repeat split; assumption).
  intros v _. exact Hb.
Qed.

(** C2 (code bug): the JSON array whose only entry is the empty text is
    answered with status 400 and not with [processed = 1]: the text of the
    entry has no first line. *)
Theorem array_with_empty_text_rejected (w : world) (addr now : string) :
  let req := {| remote_addr := addr; body := array_of_empty_text;
                clock := now |} in
  loads (body req) = Some (PyList [PyStr []])
  /\ fst (receive_logs req w) = Ok (failure IndexOutOfRange)
  /\ status (failure IndexOutOfRange) = 400.
Proof.
  cbn zeta. split; [reflexivity|]. split; [|reflexivity].
  apply batch_rejected with (rest := []). reflexivity.
Qed.

(** C3 (amended): when requests are handled one after the other, the block
    headers carry the identifiers 1, 2, ..., k in this order, k being the
    number of requests whose body parsed as JSON and the final value of the
    counter: strictly increasing, never reused, never reset by an error.  A
    request whose body parses writes the identifier that follows the
    counter, whether or not the rest of its processing succeeds; any other
    request writes no identifier.  Handling a request is advancing the
    counter and, as a separate step, printing the block under the value
    that the counter has by then; when two requests whose bodies parse are
    handled at the same time and both advance the counter before either
    prints its header, both headers carry the same identifier. *)
Theorem batch_ids_follow_parsed_requests (reqs : list request) :
  let w := snd (serve reqs fresh) in
  let k := List.length (filter parsed reqs) in
  batch_count w = N.of_nat k
  /\ header_ids (stdout w) = ids_upto k
  /\ StronglySorted N.lt (header_ids (stdout w))
  /\ (forall req w0,
        header_ids (printed_by req w0)
        = if parsed req then [batch_count w0 + 1] else [])
  /\ (forall req w0,
        receive_logs req w0
        = resume_batch req (fst (begin_batch req w0))
            (snd (begin_batch req w0)))
  /\ (forall req1 req2 w0,
        parsed req1 = true -> parsed req2 = true ->
        header_ids (printed_since w0 (snd (overlapped req1 req2 w0)))
        = [batch_count w0 + 2; batch_count w0 + 2]).
Proof.
  cbn zeta.
  destruct (serve_ids reqs fresh) as (Hc & out & Ho & Hi).
  cbn [fresh batch_count stdout app] in Hc, Ho, Hi.
  assert (E : header_ids (stdout (snd (serve reqs fresh)))
              = ids_upto (List.length (filter parsed reqs))).
  { rewrite Ho, app_nil_l, Hi. unfold ids_upto.
    apply map_ext. intros j. lia. }
  split; [rewrite Hc; lia|].
  split; [exact E|].
  split; [rewrite E; apply ids_upto_sorted|].
  split; [apply header_ids_printed|].
  split; [apply receive_logs_in_two_parts|].
  apply overlapped_ids.
Qed.

(** C4 (code bug): an entry whose text is empty is not rendered: the loop
    stops on it with [IndexError], prints nothing for it and drops the
    entries that follow. *)
Theorem empty_text_entry_not_rendered
  (i : N) (rest : list pyval) (w : world) :
  print_entry i (PyStr []) w = (Raise IndexOutOfRange, w)
  /\ for_enumerate print_entry i (PyStr [] :: rest) w
     = (Raise IndexOutOfRange, w).
Proof.
  split.
  - rewrite print_entry_spec. cbn. now rewrite emit_nil.
  - rewrite loop_spec. cbn. now rewrite emit_nil.
Qed.

(** C5 (code bug): for the JSON array of the empty text and the text [a],
    the console gets the head of the block and the error line only; the
    entry [a] gets no line under the index 02. *)
Theorem entry_after_empty_text_not_rendered
  (w : world) (addr now : string) :
  let req := {| remote_addr := addr; body := array_of_empty_text_and_a;
                clock := now |} in
  loads (body req) = Some (PyList [PyStr []; PyStr (u "a")])
  /\ printed_by req w
     = [batch_header (batch_count w + 1); source_line req; volume_line 2;
        received_line req; separator; error_line IndexOutOfRange]
  /\ fst (receive_logs req w) = Ok (failure IndexOutOfRange).
Proof.
  cbn zeta. split; [reflexivity|]. split.
  - rewrite printed_by_cases. reflexivity.
  - apply batch_rejected with (rest := [PyStr (u "a")]). reflexivity.
Qed.

(** C10: when the body parses and a fault follows, the answer is the error
    response with status 400, the counter stays advanced by one, and the
    lines printed before the fault, the block header first, stay on the
    console, followed by the error line. *)
Theorem fault_after_parse_keeps_effects
  (req : request) (w : world) (v : pyval) (e : exn) (w1 : world) :
  loads (body req) = Some v ->
  process_batch req w = (Raise e, w1) ->
  exists w' printed,
    receive_logs req w = (Ok (failure e), w')
    /\ status (failure e) = 400
    /\ payload (failure e) = PyDict [(u "status", PyStr (u "error"));
                                     (u "message", PyStr (exn_str e))]
    /\ batch_count w' = batch_count w + 1
    /\ stdout w1 = stdout w ++ batch_header (batch_count w + 1) :: printed
    /\ stdout w' = stdout w1 ++ [error_line e].
Proof.
  intros Hl Hp.
  exists (emit [error_line e] w1).
  assert (Hr : receive_logs req w = (Ok (failure e), emit [error_line e] w1)).
  { unfold receive_logs, try_except. rewrite Hp. apply on_error_spec. }
  rewrite process_batch_cases, Hl in Hp. cbn zeta in Hp.
  destruct (block_header_first req v (batch_count w + 1)) as (printed & Hb).
  rewrite Hb in Hp. injection Hp as _ <-.
  exists printed.
  split; [exact Hr|]. repeat (split; [reflexivity|]). reflexivity.
Qed.

End Facts.

(** ** Concrete requests *)

(** The object is processed as a batch of its keys: status 200, one entry,
    counter advanced. *)
Example object_body_accepted :
  receive_logs (rt := sample_runtime) (post object_body) fresh
  = (Ok (success 1),
     {| batch_count := 1;
        stdout := [batch_header 1; source_line (post object_body);
                   volume_line 1; received_line (post object_body);
                   separator; entry_prefix 0 ++ u "a"; separator] |}).
Proof. vm_compute. reflexivity. Qed.

(** C1 does not hold as written: the JSON object [{"a":1}] is not an array,
    yet it is answered with status 200 and advances the counter. *)
Lemma non_arrays_not_rejected : ~ non_arrays_rejected.
Proof.
  intros H.
  destruct (H sample_runtime (post object_body) fresh)
    as (resp & w' & Hr & Hs & _); [reflexivity|].
  rewrite object_body_accepted in Hr. injection Hr as <- _.
  discriminate Hs.
Qed.

Lemma counter_advances_on_parsed_json_witness :
  loads (body (post (u "not json"))) = None
  /\ exists resp w',
       receive_logs (rt := sample_runtime) (post (u "not json")) fresh
       = (Ok resp, w')
       /\ status resp = 400 /\ batch_count w' = 0.
Proof.
  split; [reflexivity|].
  destruct (counter_advances_on_parsed_json (rt := sample_runtime)
              (post (u "not json")) fresh)
    as (resp & w' & Hr & Hnone & _).
  exists resp, w'. split; [exact Hr|].
  destruct (Hnone eq_refl) as (Hs & _ & Hc). split; [exact Hs | exact Hc].
Defined.

(** C3 does not hold as written: after the body [5], which parses and then
    fails, the first successful batch carries the identifier 2. *)
Example success_after_fault :
  successful_ids (rt := sample_runtime) [post (u "5"); post (u "[]")] fresh
  = [2].
Proof. vm_compute. reflexivity. Qed.

Lemma successes_not_numbered_consecutively :
  ~ successes_numbered_consecutively.
Proof.
  intros H.
  specialize (H sample_runtime [post (u "5"); post (u "[]")]).
  rewrite success_after_fault in H. discriminate H.
Qed.

(** Two empty batches at the same time on a fresh process: both blocks are
    headed [BATCH #0002], and no block is headed [BATCH #0001]. *)
Example overlapped_empty_batches :
  overlapped (rt := sample_runtime) (post (u "[]")) (post (u "[]")) fresh
  = (Ok (success 0), Ok (success 0),
     {| batch_count := 2;
        stdout := [batch_header 2; source_line (post (u "[]"));
                   volume_line 0; received_line (post (u "[]")); separator;
                   separator;
                   batch_header 2; source_line (post (u "[]"));
                   volume_line 0; received_line (post (u "[]")); separator;
                   separator] |}).
Proof. vm_compute. reflexivity. Qed.

Lemma batch_ids_follow_parsed_requests_witness :
  parsed (post (u "[]")) = true
  /\ header_ids
       (printed_since fresh
          (snd (overlapped (rt := sample_runtime)
                  (post (u "[]")) (post (u "[]")) fresh)))
     = [2; 2].
Proof.
  split; [reflexivity|].
  apply (proj2 (proj2 (proj2 (proj2 (proj2
           (batch_ids_follow_parsed_requests (rt := sample_runtime) []))))));
    reflexivity.
Defined.

Lemma fault_after_parse_keeps_effects_witness :
  let w1 := {| batch_count := 1;
               stdout := [batch_header 1; source_line (post (u "5"))] |} in
  loads (body (post (u "5"))) = Some (PyInt 5)
  /\ process_batch (rt := sample_runtime) (post (u "5")) fresh
     = (Raise (NoLen "int"), w1)
  /\ exists w' printed,
       receive_logs (rt := sample_runtime) (post (u "5")) fresh
       = (Ok (failure (NoLen "int")), w')
       /\ status (failure (NoLen "int")) = 400
       /\ payload (failure (NoLen "int"))
          = PyDict [(u "status", PyStr (u "error"));
                    (u "message", PyStr (exn_str (NoLen "int")))]
       /\ batch_count w' = batch_count fresh + 1
       /\ stdout w1
          = stdout fresh ++ batch_header (batch_count fresh + 1) :: printed
       /\ stdout w' = stdout w1 ++ [error_line (NoLen "int")].
Proof.
  cbn zeta. split; [reflexivity|]. split; [reflexivity|].
  apply (fault_after_parse_keeps_effects (rt := sample_runtime)
           (post (u "5")) fresh (PyInt 5) (NoLen "int")); reflexivity.
Defined.

(** The JSON array of the texts [first], empty and [last]: the first entry
    is printed, the
    second stops the loop, the third is never reached. *)
Example entries_after_empty_text_dropped :
  let req := post (u "[" ++ QUOTE :: u "first" ++ QUOTE :: u ", "
                   ++ QUOTE :: QUOTE :: u ", " ++ QUOTE :: u "last"
                   ++ QUOTE :: u "]") in
  loads (body req)
  = Some (PyList [PyStr (u "first"); PyStr []; PyStr (u "last")])
  /\ receive_logs (rt := sample_runtime) req fresh
     = (Ok (failure IndexOutOfRange),
        {| batch_count := 1;
           stdout := [batch_header 1; source_line req; volume_line 3;
                      received_line req; separator;
                      entry_prefix 0 ++ u "first";
                      error_line IndexOutOfRange] |}).
Proof. split; vm_compute; reflexivity. Qed.

(** The JSON array [["ok", "\ud800"]]: the escape is read as a lone
    surrogate, which the console cannot encode.  The first entry is
    printed, [print] raises on the second one, and the answer has status
    400 with the message of the codec. *)
Example lone_surrogate_rejected :
  let req := post (u "[" ++ QUOTE :: u "ok" ++ QUOTE :: u ", " ++ QUOTE
                   :: u "\ud800" ++ QUOTE :: u "]") in
  loads (body req) = Some (PyList [PyStr (u "ok"); PyStr [55296]])
  /\ receive_logs (rt := sample_runtime) req fresh
     = (Ok (failure (EncodeError 55296 12 13)),
        {| batch_count := 1;
           stdout := [batch_header 1; source_line req; volume_line 2;
                      received_line req; separator;
                      entry_prefix 0 ++ u "ok";
                      error_line (EncodeError 55296 12 13)] |})
  /\ exn_str (EncodeError 55296 12 13)
     = u "'utf-8' codec can't encode character '\ud800' in position 12: surrogates not allowed".
Proof. repeat split; vm_compute; reflexivity. Qed.

(** The scenario of the endpoint's description: the body
    [["a", {"x":1}]] on a fresh process. *)
Example batch_scenario :
  receive_logs (rt := sample_runtime)
    (post (u "[" ++ QUOTE :: u "a" ++ QUOTE :: u ", {" ++ QUOTE :: u "x"
           ++ QUOTE :: u ":1}]")) fresh
  = (Ok {| payload := PyDict [(u "status", PyStr (u "success"));
                              (u "processed", PyInt 2)];
           status := 200 |},
     {| batch_count := 1;
        stdout :=
          [NEWLINE :: BOLD ++ MAGENTA ++ u "BATCH #0001" ++ RESET ++ u " "
           ++ DIM ++ rule 48 ++ RESET;
           DIM ++ u "Source: " ++ RESET ++ u " 127.0.0.1";
           DIM ++ u "Volume: " ++ RESET ++ u " 2 entries";
           DIM ++ u "Received:" ++ RESET ++ u " 2024-05-06 07:08:09.123";
           DIM ++ rule 61 ++ RESET;
           BLUE ++ u "01" ++ RESET ++ u " a";
           BLUE ++ u "02" ++ RESET ++ u " {";
           u "     " ++ QUOTE :: u "x" ++ QUOTE :: u ": 1";
           u "   }";
           DIM ++ rule 61 ++ RESET] |}).
Proof. vm_compute. reflexivity. Qed.

End HttpFacts.

(* ================================================================== *)
(** * The stream endpoint *)

Module SocketFacts.
Import Socket SocketSpec.

Section Facts.
Context {rt : Runtime}.

Lemma print_all_spec (lines : list str) (w : world) :
  print_all lines w
  = {| message_count := message_count w; stdout := stdout w ++ lines |}.
Proof.
  unfold print_all. revert w; induction lines as [|l ls IH]; intros w.
  - cbn. rewrite app_nil_r. now destruct w.
  - cbn [fold_left]. rewrite IH. unfold print. cbn.
    now rewrite <- app_assoc.
Qed.

(** One message: the counter advances, then the block of the entry is
    written under the new value. *)
Lemma on_message_spec (a : address) (now message : str) (w : world) :
  on_message a now message w
  = {| message_count := message_count w + 1;
       stdout := stdout w
                 ++ entry_block (message_count w + 1) a now
                      (fst (detect message)) (snd (detect message)) |}.
Proof.
  unfold on_message. destruct (detect message) as [content is_struct].
  rewrite print_all_spec. reflexivity.
Qed.

Lemma stream_header_id_other (c : char) (s : str) :
  c <> NEWLINE -> header_id (c :: s) = None.
Proof.
  intros H. unfold header_id. cbn [strip_prefix app].
  destruct (N.eqb_spec NEWLINE c); [congruence | reflexivity].
Qed.

Lemma header_id_entry_header (n : N) : header_id (entry_header n) = Some n.
Proof.
  unfold header_id, entry_header.
  pose proof (fmt_0w_digits 4 n) as Hd.
  pose proof (digits_value_fmt_0w 4 n) as Hv.
  revert Hd Hv. generalize (fmt_0w 4 n). intros d Hd Hv.
  cbn -[span_digits digits_value rule].
  rewrite span_digits_app;
    [cbn [fst]; now rewrite Hv | assumption | reflexivity].
Qed.

Lemma stream_header_ids_app (a b : list str) :
  header_ids (a ++ b) = header_ids a ++ header_ids b.
Proof. apply flat_map_app. Qed.

Lemma stream_header_ids_plain (lines : list str) :
  Forall (fun line => header_id line = None) lines -> header_ids lines = [].
Proof.
  induction 1 as [|l ls Hl _ IH]; simpl; auto. now rewrite Hl, IH.
Qed.

(** A block shows its identifier once, in its header. *)
Lemma header_ids_entry_block
  (n : N) (a : address) (now content : str) (is_struct : bool) :
  header_ids (entry_block n a now content is_struct) = [n].
Proof.
  unfold entry_block. rewrite !stream_header_ids_app.
  rewrite (stream_header_ids_plain (map _ _)).
  2:{ apply Forall_map, Forall_forall. intros l _.
      apply stream_header_id_other. discriminate. }
  cbn [header_ids flat_map]. rewrite header_id_entry_header.
  reflexivity.
Qed.

(** What one resumption of a handler does to the counter and the console. *)
Lemma step_spec (w : world) (e : event) :
  exists out,
    stdout (step w e) = stdout w ++ out
    /\ (if is_message e
        then message_count (step w e) = message_count w + 1
             /\ header_ids out = [message_count w + 1]
        else message_count (step w e) = message_count w
             /\ header_ids out = []).
Proof.
  destruct e as [a now|a [now message| |now]]; cbn [step is_message].
  - eexists. split; [reflexivity|]. split; reflexivity.
  - cbn [handler_resume snd]. rewrite on_message_spec. cbn.
    eexists. split; [reflexivity|]. split; [reflexivity|].
    apply header_ids_entry_block.
  - exists []. cbn. rewrite app_nil_r. auto.
  - eexists. split; [reflexivity|]. split; reflexivity.
Qed.

Lemma run_ids (trace : list event) (w : world) :
  let m := List.length (filter is_message trace) in
  message_count (run trace w) = message_count w + N.of_nat m
  /\ exists out,
       stdout (run trace w) = stdout w ++ out
       /\ header_ids out
          = map (fun j => message_count w + N.of_nat j) (seq 1 m).
Proof.
  revert w; induction trace as [|e rest IH]; intros w.
  - cbn. split; [lia|]. exists []. now rewrite app_nil_r.
  - cbn [run fold_left filter].
    destruct (IH (step w e)) as (Hc & out & Ho & Hi).
    destruct (step_spec w e) as (out0 & Ho0 & Hs).
    unfold run in Hc, Ho. rewrite Hc, Ho, Ho0, <- app_assoc.
    destruct (is_message e); destruct Hs as (Hm & Hh);
      rewrite Hm in *; cbn [List.length].
    + split; [lia|]. eexists; split; [reflexivity|].
      rewrite stream_header_ids_app, Hh, Hi. cbn [seq map].
      rewrite <- (seq_shift _ 1), map_map. simpl app.
      apply (f_equal2 (@cons N)); [lia|]. apply map_ext. intros j. lia.
    + split; [lia|]. eexists; split; [reflexivity|].
      rewrite stream_header_ids_app, Hh, Hi. reflexivity.
Qed.

(** ** The claims about the stream endpoint *)

(** C6: a message that is not JSON is no error.  The handler goes on
    receiving, so the frames that follow are handled; the counter advances
    by one; the block carries the label [Plain Text]; the content is the
    message itself, shown line by line behind two spaces. *)
Theorem non_json_message_is_plain_text
  (a : address) (now message : str) (rest : list frame) (w : world) :
  loads message = None ->
  let w' := on_message a now message w in
  handler_resume a (Message now message) w = (Receiving, w')
  /\ handler_loop a (Message now message :: rest) w = handler_loop a rest w'
  /\ message_count w' = message_count w + 1
  /\ detect message = (message, false)
  /\ stdout w'
     = stdout w
       ++ [entry_header (message_count w + 1);
           DIM ++ u "Source:" ++ RESET ++ u " " ++ show_address a;
           DIM ++ u "Time:  " ++ RESET ++ u " " ++ get_timestamp now;
           DIM ++ u "Format:" ++ RESET ++ u " " ++ u "Plain Text";
           separator]
       ++ map (fun line => u "  " ++ line) (splitlines message)
       ++ [separator].
Proof.
  intros Hl w'. subst w'.
  assert (Hd : detect message = (message, false)).
  { unfold detect. now rewrite Hl. }
  split; [reflexivity|]. split; [reflexivity|].
  rewrite on_message_spec, Hd.
  split; [reflexivity|]. split; reflexivity.
Qed.

(** C7: whatever the connections the messages arrive on and however their
    handlers are interleaved, the identifiers in the block headers are
    1, 2, ..., m for m delivered messages: each one once, none missing. *)
Theorem entry_ids_are_one_to_m (trace : list event) :
  let m := List.length (filter is_message trace) in
  let ids := header_ids (stdout (run trace fresh)) in
  ids = ids_upto m
  /\ NoDup ids
  /\ (forall n, In n ids <-> 1 <= n <= N.of_nat m)
  /\ message_count (run trace fresh) = N.of_nat m.
Proof.
  cbn zeta.
  destruct (run_ids trace fresh) as (Hc & out & Ho & Hi).
  cbn [fresh message_count stdout] in Hc, Ho, Hi.
  assert (E : header_ids (stdout (run trace fresh))
              = ids_upto (List.length (filter is_message trace))).
  { rewrite Ho, app_nil_l, Hi. unfold ids_upto.
    apply map_ext. intros j. lia. }
  rewrite E.
  split; [reflexivity|]. split; [apply ids_upto_nodup|].
  split; [intros n; apply ids_upto_in|]. rewrite Hc. lia.
Qed.

(** C9 (amended): the message [hello] (five characters, no quotes), then
    the message [{"a":1}], on a fresh stream endpoint: the entry 0001 with
    the label [Plain Text] and the content [hello], then the entry 0002
    with the label [Structured (JSON)] and the object pretty-printed over
    three lines. *)
Theorem scenario_with_unquoted_hello (a : address) (now1 now2 : str) :
  stdout (run [Delivered a (Message now1 (u "hello"));
               Delivered a (Message now2 object_a1)] fresh)
  = [NEWLINE :: BOLD ++ CYAN ++ u "ENTRY #0001" ++ RESET ++ u " "
     ++ DIM ++ rule 48 ++ RESET;
     DIM ++ u "Source:" ++ RESET ++ u " " ++ show_address a;
     DIM ++ u "Time:  " ++ RESET ++ u " " ++ get_timestamp now1;
     DIM ++ u "Format:" ++ RESET ++ u " Plain Text";
     DIM ++ rule 61 ++ RESET;
     u "  hello";
     DIM ++ rule 61 ++ RESET;
     NEWLINE :: BOLD ++ CYAN ++ u "ENTRY #0002" ++ RESET ++ u " "
     ++ DIM ++ rule 48 ++ RESET;
     DIM ++ u "Source:" ++ RESET ++ u " " ++ show_address a;
     DIM ++ u "Time:  " ++ RESET ++ u " " ++ get_timestamp now2;
     DIM ++ u "Format:" ++ RESET ++ u " Structured (JSON)";
     DIM ++ rule 61 ++ RESET;
     u "  {";
     u "    " ++ QUOTE :: u "a" ++ QUOTE :: u ": 1";
     u "  }";
     DIM ++ rule 61 ++ RESET].
Proof.
  cbn [run fold_left step handler_resume snd].
  rewrite !on_message_spec. reflexivity.
Qed.

End Facts.

(** ** Concrete messages *)

(** The quoted message is a JSON string, hence structured, and shown with
    its quotes. *)
Example quoted_hello_is_structured :
  detect (rt := sample_runtime) quoted_hello = (quoted_hello, true).
Proof. vm_compute. reflexivity. Qed.

(** The stream handler renders a message without text: its block has no
    content line. *)
Example empty_message_rendered :
  stdout (on_message (rt := sample_runtime) client
            (u "2024-05-06 07:08:09.123456") [] fresh)
  = [entry_header 1;
     DIM ++ u "Source:" ++ RESET ++ u " 127.0.0.1:50000";
     DIM ++ u "Time:  " ++ RESET ++ u " 2024-05-06 07:08:09.123";
     DIM ++ u "Format:" ++ RESET ++ u " Plain Text";
     separator;
     separator].
Proof. vm_compute. reflexivity. Qed.

(** C9 does not hold as written: the first message, with its quotes, gets
    the label [Structured (JSON)]. *)
Lemma scenario_not_as_written : ~ scenario_as_written.
Proof.
  intros H.
  specialize (H sample_runtime client [] []).
  vm_compute in H. discriminate H.
Qed.

Lemma non_json_message_is_plain_text_witness :
  loads (u "hello") = None
  /\ handler_resume (rt := sample_runtime) client
       (Message (u "2024-05-06 07:08:09.123456") (u "hello")) fresh
     = (Receiving,
        on_message (rt := sample_runtime) client
          (u "2024-05-06 07:08:09.123456") (u "hello") fresh).
Proof.
  split; [reflexivity|].
  apply (non_json_message_is_plain_text (rt := sample_runtime) client
           (u "2024-05-06 07:08:09.123456") (u "hello") [] fresh).
  reflexivity.
Defined.

End SocketFacts.

(* ================================================================== *)
(** * Rendering is reproducible *)

Module RenderingFacts.
Import Pretty.

(** Induction on a value and the values it holds. *)
Lemma pyval_induction (P : pyval -> Prop) :
  P PyNone ->
  (forall b, P (PyBool b)) ->
  (forall z, P (PyInt z)) ->
  (forall lexeme, P (PyFloat lexeme)) ->
  (forall s, P (PyStr s)) ->
  (forall items, Forall P items -> P (PyList items)) ->
  (forall items, Forall (fun kv => P (snd kv)) items -> P (PyDict items)) ->
  forall v, P v.
Proof.
  intros HNone HBool HInt HFloat HStr HList HDict.
  fix IH 1. intros [|b|z|lexeme|s|items|items].
  - exact HNone.
  - apply HBool.
  - apply HInt.
  - apply HFloat.
  - apply HStr.
  - apply HList. induction items as [|x xs IHxs]; constructor.
    + apply IH.
    + exact IHxs.
  - apply HDict. induction items as [|[k x] xs IHxs]; constructor.
    + apply IH.
    + exact IHxs.
Qed.

(** ** Lines put together *)

Lemma join_app (sep : str) (a b : list str) :
  a <> [] -> b <> [] ->
  join sep (a ++ b) = join sep a ++ sep ++ join sep b.
Proof.
  intros Ha Hb. induction a as [|x a IH]; [contradiction|].
  destruct a as [|y a].
  - destruct b as [|z b]; [contradiction|]. reflexivity.
  - change ((x :: y :: a) ++ b) with (x :: y :: (a ++ b)).
    change ((y :: a) ++ b) with (y :: (a ++ b)) in IH.
    rewrite !join_cons, IH by discriminate. now rewrite <- !app_assoc.
Qed.

Lemma join_first (sep first : str) (others : list str) :
  others <> [] -> join sep (first :: others) = first ++ sep ++ join sep others.
Proof. destruct others; [contradiction | reflexivity]. Qed.

Lemma join_with_comma (lines : list str) :
  lines <> [] ->
  join [NEWLINE] (with_comma lines) = join [NEWLINE] lines ++ u ",".
Proof.
  induction lines as [|l ls IH]; [contradiction|]. intros _.
  destruct ls as [|l' ls]; [reflexivity|].
  change (with_comma (l :: l' :: ls)) with (l :: with_comma (l' :: ls)).
  rewrite join_first, IH, join_cons by (try discriminate; now destruct ls).
  now rewrite <- !app_assoc.
Qed.

Lemma with_comma_nonempty (lines : list str) :
  lines <> [] -> with_comma lines <> [].
Proof. destruct lines as [|l [|l' ls]]; [contradiction|..]; discriminate. Qed.

Lemma members_nonempty (ms : list (list str)) :
  ms <> [] -> Forall (fun m => m <> []) ms -> members ms <> [].
Proof.
  intros Hne H. destruct H as [|m ms Hm H]; [contradiction|].
  destruct ms as [|m' ms]; [exact Hm|].
  cbn [members]. intros E. apply app_eq_nil in E as [E _].
  now apply with_comma_nonempty in E.
Qed.

(** Members put together: a comma and a newline between them. *)
Lemma join_members (ms : list (list str)) :
  Forall (fun m => m <> []) ms ->
  join [NEWLINE] (members ms)
  = join (u "," ++ [NEWLINE]) (map (join [NEWLINE]) ms).
Proof.
  induction 1 as [|m ms Hm H IH]; [reflexivity|].
  destruct ms as [|m' ms]; [reflexivity|].
  change (members (m :: m' :: ms)) with (with_comma m ++ members (m' :: ms)).
  rewrite join_app.
  - rewrite join_with_comma, IH by assumption.
    cbn [map]. rewrite join_cons. now rewrite <- !app_assoc.
  - now apply with_comma_nonempty.
  - apply members_nonempty; [discriminate | assumption].
Qed.

Lemma join_place (depth : nat) (label : str) (lines : list str) :
  lines <> [] ->
  join [NEWLINE] (place depth label lines)
  = repeat SPACE (2 * depth) ++ label ++ join [NEWLINE] lines.
Proof.
  destruct lines as [|first others]; [contradiction|]. intros _.
  unfold place, indent. destruct others as [|second others].
  - reflexivity.
  - rewrite !join_cons. now rewrite <- !app_assoc.
Qed.

(** The indentation of the members can be moved into what separates
    them. *)
Lemma join_indented {A} (sep pad : str) (f : A -> str) (items : list A) :
  items <> [] ->
  join sep (map (fun x => pad ++ f x) items)
  = pad ++ join (sep ++ pad) (map f items).
Proof.
  induction items as [|x xs IH]; [contradiction|]. intros _.
  destruct xs as [|y xs]; [reflexivity|].
  specialize (IH ltac:(discriminate)).
  change (map (fun x0 => pad ++ f x0) (x :: y :: xs))
    with ((pad ++ f x) :: map (fun x0 => pad ++ f x0) (y :: xs)).
  change (map f (x :: y :: xs)) with (f x :: map f (y :: xs)).
  rewrite !join_first, IH by (cbn [map]; discriminate).
  now rewrite <- !app_assoc.
Qed.

Section Facts.
Context {rt : Runtime}.

Lemma pretty_lines_nonempty (depth : nat) (v : pyval) :
  pretty_lines depth v <> [].
Proof. destruct v as [| | | | |[|x xs]|[|kv items]]; discriminate. Qed.

Lemma place_nonempty (depth : nat) (label : str) (lines : list str) :
  lines <> [] -> place depth label lines <> [].
Proof. destruct lines; [contradiction | discriminate]. Qed.

(** The lines of a value, put together with newlines, are the text that
    the encoder writes for it, at every depth. *)
Lemma join_pretty_lines (v : pyval) :
  forall depth, join [NEWLINE] (pretty_lines depth v) = dumps_level depth v.
Proof.
  revert v.
  apply (pyval_induction
           (fun v => forall depth,
                join [NEWLINE] (pretty_lines depth v) = dumps_level depth v));
    try reflexivity.
  - intros items IH depth.
    destruct items as [|x xs]; [reflexivity|].
    change (pretty_lines depth (PyList (x :: xs)))
      with (u "["
            :: members (map (fun y => place (S depth) []
                                        (pretty_lines (S depth) y))
                          (x :: xs))
            ++ [indent depth (u "]")]).
    change (dumps_level depth (PyList (x :: xs)))
      with (u "[" ++ newline_indent (S depth)
            ++ join (u "," ++ newline_indent (S depth))
                 (map (dumps_level (S depth)) (x :: xs))
            ++ newline_indent depth ++ u "]").
    assert (Hne : x :: xs <> []) by discriminate.
    revert IH Hne. generalize (x :: xs). clear x xs. intros items IH Hne.
    assert (Hm : Forall (fun m : list str => m <> [])
                   (map (fun y => place (S depth) []
                                    (pretty_lines (S depth) y)) items)).
    { apply Forall_map, Forall_forall. intros y _.
      apply place_nonempty, pretty_lines_nonempty. }
    rewrite join_first.
    2:{ intros E. apply app_eq_nil in E as [_ E]. discriminate. }
    rewrite join_app; [|apply members_nonempty | discriminate]; auto.
    2:{ destruct items; [contradiction | discriminate]. }
    rewrite join_members by assumption. rewrite map_map.
    rewrite (map_ext_Forall _
               (fun y => repeat SPACE (2 * S depth)
                         ++ dumps_level (S depth) y)).
    2:{ eapply Forall_impl; [|exact IH]. intros y Hy. cbv beta.
        rewrite join_place by apply pretty_lines_nonempty.
        now rewrite Hy. }
    rewrite join_indented by assumption.
    unfold newline_indent, indent. cbn [join].
    rewrite <- !app_assoc. reflexivity.
  - intros items IH depth.
    destruct items as [|kv xs]; [reflexivity|].
    change (pretty_lines depth (PyDict (kv :: xs)))
      with (u "{"
            :: members (map (fun kv0 =>
                               place (S depth)
                                 (encode_basestring_ascii (fst kv0) ++ u ": ")
                                 (pretty_lines (S depth) (snd kv0)))
                          (kv :: xs))
            ++ [indent depth (u "}")]).
    change (dumps_level depth (PyDict (kv :: xs)))
      with (u "{" ++ newline_indent (S depth)
            ++ join (u "," ++ newline_indent (S depth))
                 (map (fun kv0 =>
                         encode_basestring_ascii (fst kv0) ++ u ": "
                         ++ dumps_level (S depth) (snd kv0)) (kv :: xs))
            ++ newline_indent depth ++ u "}").
    assert (Hne : kv :: xs <> []) by discriminate.
    revert IH Hne. generalize (kv :: xs). clear kv xs. intros items IH Hne.
    assert (Hm : Forall (fun m : list str => m <> [])
                   (map (fun kv0 =>
                           place (S depth)
                             (encode_basestring_ascii (fst kv0) ++ u ": ")
                             (pretty_lines (S depth) (snd kv0))) items)).
    { apply Forall_map, Forall_forall. intros y _.
      apply place_nonempty, pretty_lines_nonempty. }
    rewrite join_first.
    2:{ intros E. apply app_eq_nil in E as [_ E]. discriminate. }
    rewrite join_app; [|apply members_nonempty | discriminate]; auto.
    2:{ destruct items; [contradiction | discriminate]. }
    rewrite join_members by assumption. rewrite map_map.
    rewrite (map_ext_Forall _
               (fun kv0 => repeat SPACE (2 * S depth)
                           ++ (encode_basestring_ascii (fst kv0) ++ u ": "
                               ++ dumps_level (S depth) (snd kv0)))).
    2:{ eapply Forall_impl; [|exact IH]. intros y Hy. cbv beta.
        rewrite join_place by apply pretty_lines_nonempty.
        now rewrite Hy, <- app_assoc. }
    rewrite (join_indented _ _
               (fun kv0 => encode_basestring_ascii (fst kv0) ++ u ": "
                           ++ dumps_level (S depth) (snd kv0)))
      by assumption.
    unfold newline_indent, indent. cbn [join].
    rewrite <- !app_assoc. reflexivity.
Qed.

(** ** The lines hold printable ASCII *)

Lemma plain_flat_map (f : char -> str) (s : str) :
  (forall c, plain (f c) = true) -> plain (flat_map f s) = true.
Proof.
  intros H. induction s as [|c rest IH]; [reflexivity|].
  cbn [flat_map]. now rewrite plain_app, H, IH.
Qed.

Lemma plain_escape_ascii (c : char) : plain (escape_ascii c) = true.
Proof.
  unfold escape_ascii.
  repeat match goal with
         | |- context [if ?b then _ else _] => destruct b eqn:?
         end;
    rewrite ?plain_app, ?plain_hex4; try reflexivity.
  cbn [plain forallb]. unfold printable_ascii.
  match goal with H : _ && _ = true |- _ => now rewrite H end.
Qed.

Lemma plain_encode_basestring_ascii (s : str) :
  plain (encode_basestring_ascii s) = true.
Proof.
  unfold encode_basestring_ascii.
  change (QUOTE :: flat_map escape_ascii s ++ [QUOTE])
    with ([QUOTE] ++ flat_map escape_ascii s ++ [QUOTE]).
  rewrite !plain_app, plain_flat_map by apply plain_escape_ascii.
  reflexivity.
Qed.

Lemma plain_floatstr (lexeme : str) :
  plain (float_repr lexeme) = true -> plain (floatstr lexeme) = true.
Proof.
  intros H. unfold floatstr. cbn zeta.
  repeat match goal with
         | |- context [if ?b then _ else _] => destruct b
         end; (reflexivity || exact H).
Qed.

Lemma floatstr_not_empty (lexeme : str) : floatstr lexeme <> [].
Proof.
  unfold floatstr. cbn zeta.
  repeat match goal with
         | |- context [if ?b then _ else _] => destruct b
         end; discriminate.
Qed.

Lemma atom_printable (v : pyval) :
  plain_floats v = true -> printable_line (atom v).
Proof.
  intros H. split.
  - destruct v as [|[|]|z|lexeme|s|items|items]; try reflexivity.
    + apply plain_str_of_Z.
    + now apply plain_floatstr.
    + apply plain_encode_basestring_ascii.
  - destruct v as [|[|]|z|lexeme|s|items|items]; try discriminate.
    + apply HttpFacts.str_of_Z_nonempty.
    + apply floatstr_not_empty.
Qed.

Lemma indent_printable (depth : nat) (line : str) :
  printable_line line -> printable_line (indent depth line).
Proof.
  intros [Hp Hne]. unfold indent. split.
  - now rewrite plain_app, plain_repeat, Hp.
  - intros E. apply app_eq_nil in E as [_ E]. contradiction.
Qed.

Lemma place_printable (depth : nat) (label : str) (lines : list str) :
  plain label = true ->
  Forall printable_line lines ->
  Forall printable_line (place depth label lines).
Proof.
  intros Hl H. destruct H as [|first others [Hp Hne] H]; [constructor|].
  cbn [place]. constructor; [|exact H].
  apply indent_printable. split.
  - now rewrite plain_app, Hl, Hp.
  - intros E. apply app_eq_nil in E as [_ E]. contradiction.
Qed.

Lemma with_comma_printable (lines : list str) :
  Forall printable_line lines -> Forall printable_line (with_comma lines).
Proof.
  induction 1 as [|l ls [Hp Hne] H IH]; [constructor|].
  destruct ls as [|l' ls].
  - constructor; [|constructor]. split.
    + now rewrite plain_app, Hp.
    + intros E. apply app_eq_nil in E as [E _]. contradiction.
  - change (with_comma (l :: l' :: ls)) with (l :: with_comma (l' :: ls)).
    constructor; [now split | exact IH].
Qed.

Lemma members_printable (ms : list (list str)) :
  Forall (Forall printable_line) ms -> Forall printable_line (members ms).
Proof.
  induction 1 as [|m ms Hm H IH]; [constructor|].
  destruct ms as [|m' ms]; [exact Hm|].
  change (members (m :: m' :: ms)) with (with_comma m ++ members (m' :: ms)).
  apply Forall_app. split; [now apply with_comma_printable | exact IH].
Qed.

Lemma pretty_lines_printable (v : pyval) :
  forall depth,
    plain_floats v = true -> Forall printable_line (pretty_lines depth v).
Proof.
  revert v.
  apply (pyval_induction
           (fun v => forall depth,
                plain_floats v = true ->
                Forall printable_line (pretty_lines depth v)));
    try (intros; constructor; [now apply atom_printable | constructor]).
  - intros items IH depth Hf.
    destruct items as [|x xs];
      [constructor; [now apply atom_printable | constructor]|].
    change (pretty_lines depth (PyList (x :: xs)))
      with (u "["
            :: members (map (fun y => place (S depth) []
                                        (pretty_lines (S depth) y))
                          (x :: xs))
            ++ [indent depth (u "]")]).
    cbn [plain_floats] in Hf. rewrite forallb_forall in Hf.
    rewrite Forall_forall in IH.
    constructor; [split; [reflexivity | discriminate]|].
    apply Forall_app. split.
    + apply members_printable, Forall_map, Forall_forall. intros y Hy.
      apply place_printable; [reflexivity|]. apply IH; auto.
    + constructor; [|constructor].
      apply indent_printable. split; [reflexivity | discriminate].
  - intros items IH depth Hf.
    destruct items as [|kv xs];
      [constructor; [now apply atom_printable | constructor]|].
    change (pretty_lines depth (PyDict (kv :: xs)))
      with (u "{"
            :: members (map (fun kv0 =>
                               place (S depth)
                                 (encode_basestring_ascii (fst kv0) ++ u ": ")
                                 (pretty_lines (S depth) (snd kv0)))
                          (kv :: xs))
            ++ [indent depth (u "}")]).
    cbn [plain_floats] in Hf. rewrite forallb_forall in Hf.
    rewrite Forall_forall in IH.
    constructor; [split; [reflexivity | discriminate]|].
    apply Forall_app. split.
    + apply members_printable, Forall_map, Forall_forall. intros y Hy.
      apply place_printable.
      * now rewrite plain_app, plain_encode_basestring_ascii.
      * apply IH; auto.
    + constructor; [|constructor].
      apply indent_printable. split; [reflexivity | discriminate].
Qed.

Lemma last_printable (lines : list str) :
  Forall printable_line lines -> last lines [SPACE] <> [].
Proof.
  induction 1 as [|l ls [_ Hne] H IH]; [discriminate|].
  destruct ls; [exact Hne | exact IH].
Qed.

(** The lines that [splitlines] finds in the text of the encoder are the
    lines of the value. *)
Lemma splitlines_dumps (v : pyval) (depth : nat) :
  plain_floats v = true ->
  splitlines (dumps_level depth v) = pretty_lines depth v.
Proof.
  intros Hf. rewrite <- join_pretty_lines.
  pose proof (pretty_lines_printable v depth Hf) as Hp.
  apply splitlines_join; [|now apply last_printable].
  eapply Forall_impl; [|exact Hp].
  intros line [Hl _]. now apply plain_no_boundary.
Qed.

Lemma pretty_lines_encodable (v : pyval) (depth : nat) :
  plain_floats v = true ->
  forallb encodable (pretty_lines depth v) = true.
Proof.
  intros Hf. apply forallb_forall. intros line Hin.
  pose proof (pretty_lines_printable v depth Hf) as Hp.
  rewrite Forall_forall in Hp. now apply plain_encodable, Hp.
Qed.

(** What the batch endpoint writes and answers depends on the state
    through the counter only. *)
Lemma batch_block_reproducible (req : Http.request) (w1 w2 : Http.world) :
  Http.batch_count w1 = Http.batch_count w2 ->
  HttpSpec.printed_by req w1 = HttpSpec.printed_by req w2
  /\ fst (Http.receive_logs req w1) = fst (Http.receive_logs req w2).
Proof.
  intros E. rewrite !HttpFacts.printed_by_cases, E. split; [reflexivity|].
  rewrite !HttpFacts.receive_logs_expected. cbn [fst]. f_equal.
  destruct (HttpFacts.expected_appends req w2) as (out & _ & H).
  now destruct (H w1 E) as (-> & _).
Qed.

(** A structured message on the stream endpoint. *)
Lemma structured_message_block
  (a : Socket.address) (now message : str) (v : pyval) (w : Socket.world) :
  loads message = Some v ->
  plain_floats v = true ->
  Socket.on_message a now message w
  = {| Socket.message_count := Socket.message_count w + 1;
       Socket.stdout :=
         Socket.stdout w
         ++ [Socket.entry_header (Socket.message_count w + 1);
             Socket.DIM ++ u "Source:" ++ Socket.RESET ++ u " "
             ++ Socket.show_address a;
             Socket.DIM ++ u "Time:  " ++ Socket.RESET ++ u " "
             ++ Socket.get_timestamp now;
             Socket.DIM ++ u "Format:" ++ Socket.RESET ++ u " "
             ++ u "Structured (JSON)";
             Socket.separator]
         ++ map (fun line => u "  " ++ line) (pretty_lines 0 v)
         ++ [Socket.separator] |}.
Proof.
  intros Hl Hf. rewrite SocketFacts.on_message_spec.
  unfold Socket.detect. rewrite Hl. cbn [fst snd].
  unfold Socket.entry_block, dumps_indent2.
  rewrite splitlines_dumps by assumption. reflexivity.
Qed.

(** A structured entry on the batch endpoint. *)
Lemma structured_entry_lines
  (i : N) (items : list (str * pyval)) (w : Http.world) :
  plain_floats (PyDict items) = true ->
  Http.print_entry i (PyDict items) w
  = (Http.Ok tt,
     {| Http.batch_count := Http.batch_count w;
        Http.stdout :=
          Http.stdout w
          ++ (Http.entry_prefix i ++ hd [] (pretty_lines 0 (PyDict items)))
             :: map (fun line => u "   " ++ line)
                  (tl (pretty_lines 0 (PyDict items))) |}).
Proof.
  intros Hf. rewrite HttpFacts.print_entry_spec.
  assert (Hs : splitlines (Http.entry_content (PyDict items))
               = pretty_lines 0 (PyDict items))
    by now apply splitlines_dumps.
  assert (He : encodable (Http.entry_content (PyDict items)) = true).
  { rewrite <- encodable_splitlines, Hs. now apply pretty_lines_encodable. }
  destruct (HttpFacts.entry_output_cases i (PyDict items))
    as [(_ & _ & ->)|([Hx|Hx] & _)]; [|discriminate|congruence].
  cbn [fst snd HttpSpec.outcome]. unfold HttpSpec.entry_lines. rewrite Hs.
  pose proof (pretty_lines_nonempty 0 (PyDict items)) as Hne.
  destruct (pretty_lines 0 (PyDict items)) as [|l0 ls]; [contradiction|].
  reflexivity.
Qed.

(** C8: rendering is reproducible.  Pretty-printed JSON is one member per
    line, in the order the dict or list holds them (not sorted), each
    level of nesting two spaces deeper than the one around it: the lines
    of [pretty_lines], put together with newlines, are the text that
    [json.dumps(indent=2)] writes, at every depth, and [splitlines] gives
    these lines back.  The block of a structured message on the stream
    endpoint is the entry header under the next value of the counter, the
    source, time and format lines, a rule, these lines each behind two
    spaces, and a rule; the block of a message that is not JSON has the
    lines of the message instead.  A structured entry of a batch is printed
    as these lines, the first one behind the index and the others behind
    three spaces.  Nothing else of the state enters: handled under the same
    counter value, the same request gives the same lines and the same
    answer. *)
Theorem rendering_is_reproducible :
  (forall depth v,
      join [NEWLINE] (pretty_lines depth v) = dumps_level depth v)
  /\ (forall v,
         plain_floats v = true ->
         splitlines (dumps_indent2 v) = pretty_lines 0 v)
  /\ (forall a now message v w,
         loads message = Some v ->
         plain_floats v = true ->
         Socket.on_message a now message w
         = {| Socket.message_count := Socket.message_count w + 1;
              Socket.stdout :=
                Socket.stdout w
                ++ [Socket.entry_header (Socket.message_count w + 1);
                    Socket.DIM ++ u "Source:" ++ Socket.RESET ++ u " "
                    ++ Socket.show_address a;
                    Socket.DIM ++ u "Time:  " ++ Socket.RESET ++ u " "
                    ++ Socket.get_timestamp now;
                    Socket.DIM ++ u "Format:" ++ Socket.RESET ++ u " "
                    ++ u "Structured (JSON)";
                    Socket.separator]
                ++ map (fun line => u "  " ++ line) (pretty_lines 0 v)
                ++ [Socket.separator] |})
  /\ (forall a now message w,
         loads message = None ->
         Socket.on_message a now message w
         = {| Socket.message_count := Socket.message_count w + 1;
              Socket.stdout :=
                Socket.stdout w
                ++ [Socket.entry_header (Socket.message_count w + 1);
                    Socket.DIM ++ u "Source:" ++ Socket.RESET ++ u " "
                    ++ Socket.show_address a;
                    Socket.DIM ++ u "Time:  " ++ Socket.RESET ++ u " "
                    ++ Socket.get_timestamp now;
                    Socket.DIM ++ u "Format:" ++ Socket.RESET ++ u " "
                    ++ u "Plain Text";
                    Socket.separator]
                ++ map (fun line => u "  " ++ line) (splitlines message)
                ++ [Socket.separator] |})
  /\ (forall i items w,
         plain_floats (PyDict items) = true ->
         Http.print_entry i (PyDict items) w
         = (Http.Ok tt,
            {| Http.batch_count := Http.batch_count w;
               Http.stdout :=
                 Http.stdout w
                 ++ (Http.entry_prefix i
                     ++ hd [] (pretty_lines 0 (PyDict items)))
                    :: map (fun line => u "   " ++ line)
                         (tl (pretty_lines 0 (PyDict items))) |}))
  /\ (forall req w1 w2,
         Http.batch_count w1 = Http.batch_count w2 ->
         HttpSpec.printed_by req w1 = HttpSpec.printed_by req w2
         /\ fst (Http.receive_logs req w1) = fst (Http.receive_logs req w2)).
Proof.
  split; [intros depth v; apply join_pretty_lines|].
  split; [intros v; apply splitlines_dumps|].
  split; [exact structured_message_block|].
  split.
  { intros a now message w Hl. rewrite SocketFacts.on_message_spec.
    unfold Socket.detect. rewrite Hl. reflexivity. }
  split; [exact structured_entry_lines|].
  exact batch_block_reproducible.
Qed.

End Facts.

(** The nested object of the examples, line by line. *)
Example nested_pretty_lines :
  loads nested_text = Some nested
  /\ pretty_lines (rt := sample_runtime) 0 nested = nested_lines
  /\ dumps_indent2 (rt := sample_runtime) nested
     = join [NEWLINE] nested_lines.
Proof. repeat split; vm_compute; reflexivity. Qed.

Lemma rendering_is_reproducible_witness :
  loads nested_text = Some nested
  /\ plain_floats (rt := sample_runtime) nested = true
  /\ Socket.on_message (rt := sample_runtime) SocketSpec.client
       (u "2024-05-06 07:08:09.123456") nested_text Socket.fresh
     = {| Socket.message_count := 1;
          Socket.stdout :=
            [Socket.entry_header 1;
             Socket.DIM ++ u "Source:" ++ Socket.RESET ++ u " 127.0.0.1:50000";
             Socket.DIM ++ u "Time:  " ++ Socket.RESET
             ++ u " 2024-05-06 07:08:09.123";
             Socket.DIM ++ u "Format:" ++ Socket.RESET
             ++ u " Structured (JSON)";
             Socket.separator]
            ++ map (fun line => u "  " ++ line) nested_lines
            ++ [Socket.separator] |}.
Proof.
  split; [reflexivity|]. split; [reflexivity|].
  exact (proj1 (proj2 (proj2 (rendering_is_reproducible
                                (rt := sample_runtime))))
           SocketSpec.client (u "2024-05-06 07:08:09.123456") nested_text
           nested Socket.fresh eq_refl eq_refl).
Defined.

End RenderingFacts.

(* ================================================================== *)
(** * Further properties of the batch endpoint *)

Module HttpExtras.
Import Http HttpSpec HttpFacts HttpMore.

Section Extras.
Context {rt : Runtime}.

(** X1: [receive_logs] contains every fault: it never raises, and its
    answer is either status 200 with the success payload or status 400 with
    the error payload carrying the text of the exception. *)
Theorem receive_logs_always_answers (req : request) (w : world) :
  exists resp w',
    receive_logs req w = (Ok resp, w')
    /\ ((status resp = 200
         /\ exists n, payload resp
                      = PyDict [(u "status", PyStr (u "success"));
                                (u "processed", PyInt (Z.of_N n))])
        \/ (status resp = 400
            /\ exists e, payload resp
                         = PyDict [(u "status", PyStr (u "error"));
                                   (u "message", PyStr (exn_str e))])).
Proof.
  exists (fst (expected req w)), (snd (expected req w)).
  split; [apply receive_logs_expected|].
  unfold expected.
  destruct (loads (body req)) as [batch|];
    [|right; split; [reflexivity | eexists; reflexivity]].
  cbn zeta.
  pose proof (block_complete req batch (batch_count w + 1)) as Hb.
  destruct (block req batch (batch_count w + 1)) as [out [resp|e]];
    cbn [fst snd answered] in *.
  - destruct (Hb resp eq_refl) as (volume & _ & -> & _).
    left. split; [reflexivity | eexists; reflexivity].
  - right. split; [reflexivity | eexists; reflexivity].
Qed.

Lemma accepted_cases (req : request) (w : world) (n : N) :
  fst (receive_logs req w) = Ok (success n)
  <-> exists v entries,
        loads (body req) = Some v
        /\ sized v = inr (n, entries)
        /\ Forall (fun e => e <> PyStr []
                            /\ encodable (entry_content e) = true) entries.
Proof.
  rewrite receive_logs_expected. cbn [fst]. unfold expected, block.
  destruct (loads (body req)) as [batch|].
  2:{ split; [discriminate|]. intros (v & entries & H & _). discriminate. }
  cbn zeta. destruct (sized batch) as [e|[volume entries]] eqn:Es.
  { split; [discriminate|].
    intros (v & entries & [= <-] & H & _). congruence. }
  destruct (snd (loop_output 0 entries)) as [err|] eqn:El;
    cbn [fst snd answered].
  - split; [discriminate|].
    intros (v & entries' & [= <-] & H & Hne).
    rewrite Es in H. injection H as _ <-.
    apply (proj2 (loop_output_finishes _ 0)) in Hne. congruence.
  - split.
    + intros [= H]. apply (f_equal Z.to_N) in H. rewrite !N2Z.id in H.
      subst volume. exists batch, entries.
      split; [reflexivity|]. split; [exact Es|].
      now apply loop_output_finishes in El.
    + intros (v & entries' & [= <-] & H & _).
      rewrite Es in H. now injection H as -> _.
Qed.

(** X2: a request is answered with status 200 and [processed = n] exactly
    when its body parses as JSON into a value that has a length [n] (a
    list, a text or a dict) and each of whose items has a text that is not
    empty and holds no surrogate, which the console could not encode. *)
Theorem accepted_iff (req : request) (w : world) (n : N) :
  fst (receive_logs req w) = Ok (success n)
  <-> exists v entries,
        loads (body req) = Some v
        /\ sized v = inr (n, entries)
        /\ Forall (fun e => e <> PyStr []
                            /\ encodable (entry_content e) = true) entries.
Proof. apply accepted_cases. Qed.

(** X3: the caller is told what the console shows.  After a request the
    last console line is the closing rule when the answer has status 200,
    and the error line with the message of the payload when it has status
    400. *)
Theorem last_line_matches_answer (req : request) (w : world) :
  exists resp w',
    receive_logs req w = (Ok resp, w')
    /\ (status resp = 200 -> last (stdout w') [] = DIM ++ rule 61 ++ RESET)
    /\ (status resp = 400 ->
        exists e,
          payload resp = PyDict [(u "status", PyStr (u "error"));
                                 (u "message", PyStr (exn_str e))]
          /\ last (stdout w') []
             = BOLD ++ u "Error processing batch:" ++ RESET ++ u " "
               ++ exn_str e).
Proof.
  exists (fst (expected req w)), (snd (expected req w)).
  split; [apply receive_logs_expected|].
  unfold expected.
  destruct (loads (body req)) as [batch|]; cbn zeta.
  2:{ split; [discriminate|]. intros _. exists BadRequest.
      split; [reflexivity|]. cbn [snd emit stdout]. apply last_last. }
  pose proof (block_complete req batch (batch_count w + 1)) as Hb.
  destruct (block req batch (batch_count w + 1)) as [out [resp|e]];
    cbn [fst snd answered emit stdout] in *.
  - destruct (Hb resp eq_refl) as (volume & printed & -> & ->).
    split; [|discriminate]. intros _.
    rewrite app_nil_r, app_assoc. apply last_last.
  - split; [discriminate|]. intros _. exists e.
    split; [reflexivity|]. rewrite app_assoc. apply last_last.
Qed.

(** X4: over any sequence of requests every request gets one answer, the
    console only grows (by at least one line per request) and the counter
    never decreases nor advances by more than one per request. *)
Theorem serve_only_appends (reqs : list request) (w : world) :
  List.length (fst (serve reqs w)) = List.length reqs
  /\ (exists out,
        stdout (snd (serve reqs w)) = stdout w ++ out
        /\ (List.length reqs <= List.length out)%nat)
  /\ batch_count w <= batch_count (snd (serve reqs w))
     <= batch_count w + N.of_nat (List.length reqs).
Proof.
  split; [apply serve_answers_all|].
  revert w; induction reqs as [|req rest IH]; intros w.
  - cbn. split; [exists []; now rewrite app_nil_r | lia].
  - rewrite serve_cons. cbn [snd List.length].
    destruct (IH (snd (expected req w))) as ((out & Ho & Hl) & Hc).
    rewrite batch_count_after in Hc.
    rewrite Ho, printed_by_spec, <- app_assoc.
    split.
    + eexists. split; [reflexivity|]. rewrite length_app.
      assert (1 <= List.length (printed_by req w))%nat; [|lia].
      rewrite printed_by_cases.
      destruct (loads (body req)) as [batch|]; [|simpl; lia].
      cbn zeta. destruct (sized batch) as [e|[volume entries]];
        simpl; lia.
    + destruct (parsed req); lia.
Qed.

(** Handling two sequences of requests one after the other is handling
    their concatenation. *)
Lemma serve_app (reqs1 reqs2 : list request) (w : world) :
  serve (reqs1 ++ reqs2) w
  = (fst (serve reqs1 w) ++ fst (serve reqs2 (snd (serve reqs1 w))),
     snd (serve reqs2 (snd (serve reqs1 w)))).
Proof.
  revert w; induction reqs1 as [|req rest IH]; intros w.
  - cbn [serve fst snd]. rewrite app_nil_l. now destruct (serve reqs2 w).
  - change ((req :: rest) ++ reqs2) with (req :: (rest ++ reqs2)).
    rewrite !serve_cons, IH. reflexivity.
Qed.

(** X6: a body that is a JSON string is handled as a batch of its
    characters: it is answered with status 200 and [processed] the length
    of the string exactly when the string holds no surrogate. *)
Theorem text_body_accepted (req : request) (w : world) (s : str) :
  loads (body req) = Some (PyStr s) ->
  fst (receive_logs req w) = Ok (success (N.of_nat (List.length s)))
  <-> encodable s = true.
Proof.
  intros H. rewrite accepted_cases. split.
  - intros (v & entries & Hv & Hs & Hf).
    rewrite H in Hv. injection Hv as <-. cbn [sized] in Hs.
    injection Hs as <-.
    apply forallb_forall. intros c Hc.
    rewrite Forall_map, Forall_forall in Hf.
    destruct (Hf c Hc) as [_ He]. cbn in He.
    now rewrite andb_true_r in He.
  - intros He. exists (PyStr s), (map (fun c => PyStr [c]) s).
    split; [exact H|]. split; [reflexivity|].
    apply Forall_map, Forall_forall. intros c Hc.
    split; [discriminate|].
    unfold encodable in He. rewrite forallb_forall in He.
    cbn. now rewrite (He c Hc).
Qed.

Lemma strip_prefix_app (p rest : str) : strip_prefix p (p ++ rest) = Some rest.
Proof.
  induction p as [|c p IH]; [reflexivity|].
  change (strip_prefix (c :: p) ((c :: p) ++ rest))
    with (if c =? c then strip_prefix p (p ++ rest) else None).
  now rewrite N.eqb_refl.
Qed.

Lemma index_line_of_entry (i : N) (e : pyval) :
  e <> PyStr [] ->
  filter is_index_line (entry_lines i e)
  = [entry_prefix i ++ hd [] (splitlines (entry_content e))].
Proof.
  intros He. unfold entry_lines.
  destruct (splitlines (entry_content e)) as [|l0 ls] eqn:E.
  { apply splitlines_nil, entry_content_empty in E. contradiction. }
  cbn [filter hd]. unfold is_index_line at 1, entry_prefix at 1.
  rewrite <- !app_assoc, strip_prefix_app. f_equal.
  clear E. induction ls as [|l ls IH]; [reflexivity|].
  cbn [map filter].
  change (is_index_line (u "   " ++ l)) with false. exact IH.
Qed.

Lemma index_lines_of_entries (l : list (nat * pyval)) :
  Forall (fun ke : nat * pyval => snd ke <> PyStr []) l ->
  filter is_index_line
    (flat_map (fun ke => entry_lines (N.of_nat (fst ke)) (snd ke)) l)
  = map (fun ke => entry_prefix (N.of_nat (fst ke))
                   ++ hd [] (splitlines (entry_content (snd ke)))) l.
Proof.
  induction 1 as [|ke l Hke _ IH]; [reflexivity|].
  cbn [flat_map map]. rewrite filter_app, IH, index_line_of_entry by auto.
  reflexivity.
Qed.

(** X5: in the block of an accepted batch (every entry has a text that is
    not empty and holds no surrogate) the lines that start with the index
    colour are one per entry, in the order of the entries: the k-th one
    carries the index k and the first line of the text of the k-th
    entry. *)
Theorem index_lines_number_the_entries
  (req : request) (w : world) (v : pyval) (n : N) (entries : list pyval) :
  loads (body req) = Some v ->
  sized v = inr (n, entries) ->
  Forall (fun e => e <> PyStr [] /\ encodable (entry_content e) = true)
    entries ->
  filter is_index_line (printed_by req w)
  = map (fun ke => entry_prefix (N.of_nat (fst ke))
                   ++ hd [] (splitlines (entry_content (snd ke))))
      (combine (seq 0 (List.length entries)) entries).
Proof.
  intros Hl Hs Hne.
  rewrite printed_by_cases, Hl. cbn zeta. rewrite Hs.
  rewrite (proj2 (loop_output_finishes entries 0) Hne).
  change (loop_output 0 entries) with (loop_output (N.of_nat 0) entries).
  rewrite (loop_output_in_order entries 0 Hne).
  rewrite !filter_app, index_lines_of_entries.
  - cbn [filter].
    change (is_index_line (batch_header (batch_count w + 1))) with false.
    change (is_index_line (source_line req)) with false.
    change (is_index_line (volume_line n)) with false.
    change (is_index_line (received_line req)) with false.
    change (is_index_line separator) with false.
    cbn [app]. apply app_nil_r.
  - apply Forall_forall. intros [k e] Hin. apply in_combine_r in Hin.
    rewrite Forall_forall in Hne. now apply Hne.
Qed.

(** X7: headers tell counters apart: two block headers are the same line
    only for the same batch identifier, whatever its size. *)
Theorem batch_header_injective (n m : N) :
  batch_header n = batch_header m <-> n = m.
Proof.
  split; [|now intros ->].
  intros H. apply (f_equal header_id) in H.
  rewrite !header_id_batch_header in H. now injection H.
Qed.

(** X8: the identifier of a batch takes four digits up to 9999 and more
    from 10000 on: the block header has the width of the first header
    exactly for identifiers below 10000. *)
Theorem batch_header_width (n : N) :
  List.length (batch_header n) = List.length (batch_header 0)
  <-> n < 10000.
Proof.
  assert (E : forall k, List.length (batch_header k)
                        = (78 + List.length (fmt_0w 4 k))%nat).
  { intros k. unfold batch_header. generalize (fmt_0w 4 k). intros d.
    cbn [List.length]. rewrite !length_app. cbn.
    unfold str, char in *. lia. }
  rewrite !E. change (List.length (fmt_0w 4 0)) with 4%nat.
  split.
  - intros H. assert (Hl : List.length (fmt_0w 4 n) = 4%nat) by lia.
    pose proof (digits_value_bound (fmt_0w 4 n) (fmt_0w_digits 4 n)) as B.
    rewrite digits_value_fmt_0w, Hl in B. exact B.
  - intros H. rewrite (fmt_0w_length 4 n); [reflexivity | lia | exact H].
Qed.

(** X14: an entry whose text is not empty and holds no surrogate is
    printed without loss: the loop body does not raise, leaves the counter
    alone and writes the first line of the text behind the index and the
    other lines behind three spaces; these lines hold no line boundary
    and, put end to end, give the characters of the text other than line
    boundaries. *)
Theorem print_entry_keeps_text (i : N) (e : pyval) (w : world) :
  e <> PyStr [] ->
  encodable (entry_content e) = true ->
  exists l0 ls,
    print_entry i e w
    = (Ok tt,
       {| batch_count := batch_count w;
          stdout := stdout w
                    ++ (entry_prefix i ++ l0)
                       :: map (fun line => u "   " ++ line) ls |})
    /\ List.concat (l0 :: ls) = filter not_linebreak (entry_content e)
    /\ Forall (fun line => forallb not_linebreak line = true) (l0 :: ls).
Proof.
  intros He Hc. rewrite print_entry_spec.
  destruct (entry_output_cases i e)
    as [(_ & _ & ->)|([Hx|Hx] & _)]; [|contradiction|congruence].
  unfold entry_lines.
  pose proof (splitlines_concat (entry_content e)) as Hcat.
  pose proof (splitlines_no_boundary (entry_content e)) as Hb.
  destruct (splitlines (entry_content e)) as [|l0 ls] eqn:E.
  { apply splitlines_nil, entry_content_empty in E. contradiction. }
  exists l0, ls. split; [reflexivity|]. split; assumption.
Qed.

End Extras.

Lemma text_body_accepted_witness :
  loads (body (post (QUOTE :: u "ab" ++ [QUOTE]))) = Some (PyStr (u "ab"))
  /\ (fst (receive_logs (rt := sample_runtime)
             (post (QUOTE :: u "ab" ++ [QUOTE])) fresh)
      = Ok (success (N.of_nat (List.length (u "ab"))))
      <-> encodable (u "ab") = true).
Proof.
  split; [reflexivity|].
  apply (text_body_accepted (rt := sample_runtime)). reflexivity.
Defined.

Lemma index_lines_number_the_entries_witness :
  let req := post (u "[" ++ QUOTE :: u "a" ++ QUOTE :: u ", {" ++ QUOTE
                   :: u "x" ++ QUOTE :: u ":1}]") in
  let entries := [PyStr (u "a"); PyDict [(u "x", PyInt 1)]] in
  loads (body req) = Some (PyList entries)
  /\ sized (PyList entries) = inr (2, entries)
  /\ Forall (fun e => e <> PyStr []
                      /\ encodable (entry_content (rt := sample_runtime) e)
                         = true) entries
  /\ filter is_index_line (printed_by (rt := sample_runtime) req fresh)
     = map (fun ke => entry_prefix (N.of_nat (fst ke))
                      ++ hd [] (splitlines
                                  (entry_content (rt := sample_runtime)
                                     (snd ke))))
         (combine (seq 0 (List.length entries)) entries).
Proof.
  cbn zeta.
  assert (H : Forall (fun e => e <> PyStr []
                               /\ encodable
                                    (entry_content (rt := sample_runtime) e)
                                  = true)
                [PyStr (u "a"); PyDict [(u "x", PyInt 1)]])
    by (repeat constructor; discriminate).
  split; [reflexivity|]. split; [reflexivity|]. split; [exact H|].
  apply (index_lines_number_the_entries (rt := sample_runtime) _ fresh
           (PyList [PyStr (u "a"); PyDict [(u "x", PyInt 1)]]) 2);
    [reflexivity | reflexivity | exact H].
Defined.

Lemma print_entry_keeps_text_witness :
  PyStr (u "a") <> PyStr []
  /\ encodable (entry_content (rt := sample_runtime) (PyStr (u "a"))) = true
  /\ exists l0 ls,
       print_entry (rt := sample_runtime) 0 (PyStr (u "a")) fresh
       = (Ok tt,
          {| batch_count := batch_count fresh;
             stdout := stdout fresh
                       ++ (entry_prefix 0 ++ l0)
                          :: map (fun line => u "   " ++ line) ls |})
       /\ List.concat (l0 :: ls)
          = filter not_linebreak
              (entry_content (rt := sample_runtime) (PyStr (u "a")))
       /\ Forall (fun line => forallb not_linebreak line = true) (l0 :: ls).
Proof.
  split; [discriminate|]. split; [reflexivity|].
  apply (print_entry_keeps_text (rt := sample_runtime));
    [discriminate | reflexivity].
Defined.

End HttpExtras.

(* ================================================================== *)
(** * Further properties of the timestamps *)

Module ClockExtras.
Import Clock.

Lemma drop_last_three (x b : str) :
  List.length b = 3%nat -> firstn (List.length (x ++ b) - 3) (x ++ b) = x.
Proof.
  intros H. rewrite length_app, H.
  replace (List.length x + 3 - 3)%nat with (List.length x) by lia.
  rewrite firstn_app, Nat.sub_diag, firstn_all, firstn_O. apply app_nil_r.
Qed.

(** X9: [get_timestamp] shows the clock to the millisecond.  Of a reading
    formatted with its six digits of microseconds it keeps the date and the
    time to the second, the dot, and the whole milliseconds on three
    digits, truncated and not rounded; so do both servers. *)
Theorem get_timestamp_milliseconds (dt : datetime) :
  microsecond dt < 1000000 ->
  Http.get_timestamp (strftime dt)
  = to_the_second dt ++ u "." ++ fmt_0w 3 (microsecond dt / 1000)
  /\ Socket.get_timestamp (strftime dt)
     = to_the_second dt ++ u "." ++ fmt_0w 3 (microsecond dt / 1000).
Proof.
  intros H.
  assert (E : strftime dt
              = (to_the_second dt ++ u "."
                 ++ fmt_0w 3 (microsecond dt / 1000))
                ++ fmt_0w 3 (microsecond dt mod 1000)).
  { unfold strftime. change 6%nat with (3 + 3)%nat.
    rewrite (fmt_0w_split 3 3 (microsecond dt)); [|lia|lia|exact H].
    change (10 ^ N.of_nat 3) with 1000. now rewrite <- !app_assoc. }
  assert (L : List.length (fmt_0w 3 (microsecond dt mod 1000)) = 3%nat).
  { apply fmt_0w_length; [lia|]. change (10 ^ N.of_nat 3) with 1000.
    apply N.mod_lt. lia. }
  unfold Http.get_timestamp, Socket.get_timestamp. rewrite E.
  split; apply drop_last_three; exact L.
Qed.

Lemma get_timestamp_milliseconds_witness :
  let dt := {| year := 2024; month := 5; day := 6; hour := 7; minute := 8;
               second := 9; microsecond := 123999 |} in
  microsecond dt < 1000000
  /\ Http.get_timestamp (strftime dt) = u "2024-05-06 07:08:09.123".
Proof.
  cbn zeta. split; [reflexivity|].
  apply (get_timestamp_milliseconds
           {| year := 2024; month := 5; day := 6; hour := 7; minute := 8;
              second := 9; microsecond := 123999 |}).
  reflexivity.
Defined.

End ClockExtras.

(* ================================================================== *)
(** * Further properties of the stream endpoint *)

Module SocketExtras.
Import Socket SocketSpec SocketFacts SocketMore.

Section Extras.
Context {rt : Runtime}.

Lemma handler_loop_as_run (a : address) (frames : list frame) (w : world) :
  snd (handler_loop a frames w)
  = fold_left step (map (Delivered a) (frames_read frames)) w
  /\ fst (handler_loop a frames w)
     = if existsb is_close frames then Returned else Receiving.
Proof.
  revert w; induction frames as [|f rest IH]; intros w; [split; reflexivity|].
  cbn [handler_loop frames_read existsb].
  destruct f as [now message| |now]; cbn [handler_resume is_close orb].
  - cbn [map fold_left step handler_resume snd]. apply IH.
  - split; reflexivity.
  - split; reflexivity.
Qed.

(** X10: the life of one connection is a run of the event loop: handling
    everything a connection delivers gives the state reached by the
    resumptions of its handler, one for the connection accepted and one per
    frame up to the first end of the connection; the handler has returned
    exactly when the connection ended. *)
Theorem handler_is_a_run
  (a : address) (now : str) (frames : list frame) (w : world) :
  snd (handler a now frames w) = run (connection_events a now frames) w
  /\ fst (handler a now frames w)
     = if existsb is_close frames then Returned else Receiving.
Proof.
  unfold handler, run, connection_events. cbn [fold_left step].
  apply handler_loop_as_run.
Qed.

(** X11: a handler reads nothing after the end of its connection: the
    frames that follow the first end of connection change neither the
    counter nor the console. *)
Theorem frames_after_close_ignored
  (a : address) (now : str) (before after : list frame) (c : frame)
  (w : world) :
  is_close c = true ->
  handler a now (before ++ c :: after) w = handler a now (before ++ [c]) w.
Proof.
  intros Hc. unfold handler.
  generalize (snd (handler_start a now w)). clear w.
  induction before as [|f rest IH]; intros w.
  - rewrite !app_nil_l. cbn [handler_loop].
    destruct c; [discriminate | reflexivity | reflexivity].
  - rewrite <- !app_comm_cons. cbn [handler_loop].
    destruct (handler_resume a f w) as [[|] w']; [apply IH | reflexivity].
Qed.

Lemma floatstr_nonempty (lexeme : str) : floatstr lexeme <> [].
Proof.
  unfold floatstr, float_repr.
  repeat match goal with
         | |- (if ?b then _ else _) <> _ => destruct b
         end; discriminate.
Qed.

Lemma dumps_nonempty (v : pyval) : dumps_indent2 v <> [].
Proof.
  destruct v as [|[|]| | | |[|]|[|]]; cbn; try discriminate.
  - apply HttpFacts.str_of_Z_nonempty.
  - apply floatstr_nonempty.
Qed.

(** X12: every message gets a block of at least six console lines: the
    header, the source, the time, the format, and the two rules.  A
    message that parses as JSON gets at least one content line more; only
    the empty message gets none. *)
Theorem block_size (a : address) (now message : str) (w : world) :
  exists k,
    List.length (stdout (on_message a now message w))
    = (List.length (stdout w) + 6 + k)%nat
    /\ k = List.length (splitlines (fst (detect message)))
    /\ (k = 0%nat <-> message = []).
Proof.
  exists (List.length (splitlines (fst (detect message)))).
  split; [|split; [reflexivity|]].
  - rewrite on_message_spec. cbn [stdout]. unfold entry_block.
    rewrite !length_app, length_map. cbn [List.length].
    unfold str, char in *. lia.
  - rewrite length_zero_iff_nil, splitlines_nil. unfold detect.
    destruct (loads message) as [data|] eqn:E; cbn [fst].
    + split.
      * intros H. exfalso. revert H. apply dumps_nonempty.
      * intros ->. discriminate E.
    + tauto.
Qed.

(** X13: the content lines of a block render the content without loss:
    each is a line of the content behind two spaces, none holds a line
    boundary, and put end to end the lines give the characters of the
    content other than line boundaries, in order.  The content is the
    message itself when it is not JSON. *)
Theorem content_lines_keep_text
  (a : address) (now message : str) (w : world) :
  exists lines,
    stdout (on_message a now message w)
    = stdout w
      ++ [entry_header (message_count w + 1);
          DIM ++ u "Source:" ++ RESET ++ u " " ++ show_address a;
          DIM ++ u "Time:  " ++ RESET ++ u " " ++ get_timestamp now;
          DIM ++ u "Format:" ++ RESET ++ u " "
          ++ format_label (snd (detect message));
          separator]
      ++ map (fun line => u "  " ++ line) lines
      ++ [separator]
    /\ List.concat lines = filter not_linebreak (fst (detect message))
    /\ Forall (fun line => forallb not_linebreak line = true) lines
    /\ (loads message = None -> fst (detect message) = message).
Proof.
  exists (splitlines (fst (detect message))).
  split; [rewrite on_message_spec; reflexivity|].
  split; [apply splitlines_concat|].
  split; [apply splitlines_no_boundary|].
  intros H. unfold detect. now rewrite H.
Qed.

(** X15: block headers tell entries apart and keep their width up to 9999:
    two headers are the same line only for the same entry identifier, and
    a header has the width of the first one exactly for identifiers below
    10000. *)
Theorem entry_header_injective_and_width (n m : N) :
  (entry_header n = entry_header m <-> n = m)
  /\ (List.length (entry_header n) = List.length (entry_header 0)
      <-> n < 10000).
Proof.
  split.
  - split; [|now intros ->].
    intros H. apply (f_equal header_id) in H.
    rewrite !header_id_entry_header in H. now injection H.
  - assert (E : forall k, List.length (entry_header k)
                          = (78 + List.length (fmt_0w 4 k))%nat).
    { intros k. unfold entry_header. generalize (fmt_0w 4 k). intros d.
      cbn [List.length]. rewrite !length_app. cbn.
      unfold str, char in *. lia. }
    rewrite !E. change (List.length (fmt_0w 4 0)) with 4%nat.
    split.
    + intros H. assert (Hl : List.length (fmt_0w 4 n) = 4%nat) by lia.
      pose proof (digits_value_bound (fmt_0w 4 n) (fmt_0w_digits 4 n)) as B.
      rewrite digits_value_fmt_0w, Hl in B. exact B.
    + intros H. rewrite (fmt_0w_length 4 n); [reflexivity | lia | exact H].
Qed.

End Extras.

Lemma frames_after_close_ignored_witness :
  is_close ClosedOK = true
  /\ handler (rt := sample_runtime) client (u "2024-05-06 07:08:09.123456")
       ([Message (u "2024-05-06 07:08:10.000000") (u "hello")]
        ++ ClosedOK
           :: [Message (u "2024-05-06 07:08:11.000000") (u "late")]) fresh
     = handler (rt := sample_runtime) client (u "2024-05-06 07:08:09.123456")
         ([Message (u "2024-05-06 07:08:10.000000") (u "hello")]
          ++ [ClosedOK]) fresh.
Proof.
  split; [reflexivity|].
  apply (frames_after_close_ignored (rt := sample_runtime)). reflexivity.
Defined.

End SocketExtras.
